(** * GeneralTemporalMemory: the sensorimotor temporal-memory layer

    A shallow embedding of [sensorimotor/general_temporal_memory.py].

    The Python class extends a base [TemporalMemory] whose code is not
    part of this repository's sources; the base class and its
    connectivity graph appear here as an interface (a type class).  The
    layer's own methods ([compute], [computeFn], [reset], [burstColumns],
    [reindexActiveExternalCells]) are translated statement by statement.

    Python sets and dicts are mutable objects that are passed by
    reference.  Sets of cells and the chosen-cell dict therefore live in
    an explicit store and are addressed by references, so that an
    in-place [update] or item assignment is seen through every alias. *)

From stdpp Require Import gmap list.

#[local] Set Warnings "-clear-no-such-hyp".

Local Open Scope Z_scope.

(** ** Cells and segments *)

(** [ConnectionsCell(idx)]: a cell is a wrapper around its index. *)
Record Cell : Type := ConnectionsCell { idx : Z }.

#[global] Instance Cell_eq_dec : EqDecision Cell.
Proof. solve_decision. Defined.

#[global] Instance Cell_countable : Countable Cell :=
  inj_countable' idx ConnectionsCell (fun c => match c with ConnectionsCell _ => eq_refl end).

#[global] Instance Cell_inhabited : Inhabited Cell := populate (ConnectionsCell 0).

#[global] Instance ConnectionsCell_inj : Inj (=) (=) ConnectionsCell.
Proof. intros i j [= ->]. reflexivity. Qed.

(** A segment of the connectivity graph.  The layer reads only
    [bestSegment.cell]; [seg_idx] tells apart two segments of one cell. *)
Record Segment : Type := mkSegment { seg_idx : Z; cell : Cell }.

#[global] Instance Segment_eq_dec : EqDecision Segment.
Proof. solve_decision. Defined.

#[global] Instance Segment_countable : Countable Segment :=
  inj_countable' (fun s => (seg_idx s, cell s)) (fun p => mkSegment p.1 p.2)
                 (fun s => match s with mkSegment _ _ => eq_refl end).

(** References to set objects and to dict objects. *)
Abbreviation ref := positive.

(** The sets that the loop of [burstColumns] builds: [activeCells],
    [winnerCells] and [learningSegments]. *)
Abbreviation BurstAcc := (gset Cell * gset Cell * gset Segment)%type.

(** ** The base class

    What [GeneralTemporalMemory] inherits from [TemporalMemory] and calls
    on [connections].  Columns and raw external indices are Python ints.
    Methods that update the graph return the updated graph. *)
Class TemporalMemory : Type := {
  Connections : Type;
  numberOfCells : Z;
  minThreshold : Z;
  cellsForColumn : Z -> gset Cell;
  leastUsedCell : gset Cell -> Connections -> Cell;
  mostActiveSegmentForCells :
    Connections -> list Cell -> list Cell -> Z -> option Segment;
  createSegment : Connections -> Cell -> Segment * Connections;
  activateCorrectlyPredictiveCells :
    gset Cell -> gset Z -> gset Cell * gset Cell * gset Z;
  learnOnSegments :
    gset Segment -> gset Segment -> gset Cell -> gset Cell -> gset Cell ->
    Connections -> Connections;
  computePredictiveCells :
    gset Cell -> Connections -> gset Segment * gset Cell
}.

(** ** The store and its monad *)

Section Layer.

Context {TM : TemporalMemory}.

(** The objects a call can reach: sets of cells, chosen-cell dicts and
    the one connectivity graph [connections]. *)
Record World : Type := mkWorld {
  cellsets : gmap positive (gset Cell);
  dicts : gmap positive (gmap Z Cell);
  connections : Connections
}.

Definition St (A : Type) : Type := World -> A * World.

#[global] Instance St_ret : MRet St := fun A (a : A) w => (a, w).

#[global] Instance St_bind : MBind St :=
  fun A B (f : A -> St B) (m : St A) w => let '(a, w') := m w in f a w'.

(** [set(...)]: a new set object. *)
Definition new_set (s : gset Cell) : St ref := fun w =>
  let r := fresh (dom (cellsets w)) in
  (r, mkWorld (<[r := s]> (cellsets w)) (dicts w) (connections w)).

(** [dict()]: a new, empty dict object. *)
Definition new_dict : St ref := fun w =>
  let r := fresh (dom (dicts w)) in
  (r, mkWorld (cellsets w) (<[r := ∅]> (dicts w)) (connections w)).

(** Reading the contents of a set object. *)
Definition get_set (r : ref) : St (gset Cell) := fun w =>
  (cellsets w !!! r, w).

(** [r.update(s)]: in-place union. *)
Definition set_update (r : ref) (s : gset Cell) : St unit := fun w =>
  (tt, mkWorld (<[r := (cellsets w !!! r) ∪ s]> (cellsets w)) (dicts w) (connections w)).

(** Reading the contents of a dict object. *)
Definition get_dict (r : ref) : St (gmap Z Cell) := fun w =>
  (dicts w !!! r, w).

(** [d[k] = v]: in-place item assignment. *)
Definition dict_setitem (r : ref) (k : Z) (v : Cell) : St unit := fun w =>
  (tt, mkWorld (cellsets w) (<[r := <[k := v]> (dicts w !!! r)]> (dicts w)) (connections w)).

(** A call that reads the graph. *)
Definition read_connections {A : Type} (f : Connections -> A) : St A := fun w =>
  (f (connections w), w).

(** A call that updates the graph and returns a value. *)
Definition call_connections {A : Type} (f : Connections -> A * Connections) : St A := fun w =>
  let '(a, g) := f (connections w) in
  (a, mkWorld (cellsets w) (dicts w) g).

(** ** Helper functions *)

Definition increaseIndexByNumberOfCells (numCells : Z) (index : Z) : Cell :=
  ConnectionsCell (index + numCells).

(** [reindexActiveExternalCells]: the result is a set built by [set(map ...)];
    the argument is only iterated over. *)
Definition reindexActiveExternalCells (activeExternalCells : gset Z) : gset Cell :=
  let numCells := numberOfCells in
  set_map (increaseIndexByNumberOfCells numCells) activeExternalCells.

(** ** Phase 2: burst unpredicted columns *)

(** The candidate cells of a bursting column: all its cells, or the
    one chosen earlier when [learnOnOneCell] holds and the dict has the
    column. *)
Definition candidateCells (learnOnOneCell : bool) (chosen : gmap Z Cell)
    (column : Z) : gset Cell :=
  let cells := cellsForColumn column in
  if learnOnOneCell && bool_decide (column ∈ dom chosen) then
    let chosenCell := chosen !!! column in
    {[ chosenCell ]}
  else cells.

(** [bestSegment] of one column: the most active segment of the
    candidates, or else a new segment on their least used cell. *)
Definition bestSegmentFor (cells prevActiveCells : gset Cell) : St Segment :=
  bestSegment ← read_connections (fun g =>
    mostActiveSegmentForCells g (elements cells) (elements prevActiveCells) minThreshold);
  match bestSegment with
  | Some s => mret s
  | None =>
      leastUsed ← read_connections (leastUsedCell cells);
      call_connections (fun g => createSegment g leastUsed)
  end.

(** One iteration of [for column in unpredictedColumns]. *)
Definition burstColumn (prevActiveCells : gset Cell) (learnOnOneCell : bool)
    (chosenCellForColumn : ref) (acc : BurstAcc) (column : Z) : St BurstAcc :=
  let '(activeCells, winnerCells, learningSegments) := acc in
  let activeCells := activeCells ∪ cellsForColumn column in
  chosen ← get_dict chosenCellForColumn;
  let cells := candidateCells learnOnOneCell chosen column in
  bestSegment ← bestSegmentFor cells prevActiveCells;
  let bestCell := ConnectionsCell (idx (cell bestSegment)) in
  let winnerCells := winnerCells ∪ {[ bestCell ]} in
  let learningSegments := learningSegments ∪ {[ bestSegment ]} in
  _ ← dict_setitem chosenCellForColumn column bestCell;
  mret (activeCells, winnerCells, learningSegments).

Fixpoint burstColumns_loop (prevActiveCells : gset Cell) (learnOnOneCell : bool)
    (chosenCellForColumn : ref) (acc : BurstAcc) (columns : list Z) : St BurstAcc :=
  match columns with
  | [] => mret acc
  | column :: rest =>
      acc' ← burstColumn prevActiveCells learnOnOneCell chosenCellForColumn acc column;
      burstColumns_loop prevActiveCells learnOnOneCell chosenCellForColumn acc' rest
  end.

(** [burstColumns].  It updates no set it is given, so the sets come as
    their contents; the dict is updated in place and the same dict is
    returned.  The loop visits the unpredicted columns in the order of
    [elements]. *)
Definition burstColumns (activeColumns predictedColumns : gset Z)
    (prevActiveCells : gset Cell) (learnOnOneCell : bool)
    (chosenCellForColumn : ref) : St (BurstAcc * ref) :=
  let unpredictedColumns := activeColumns ∖ predictedColumns in
  acc ← burstColumns_loop prevActiveCells learnOnOneCell chosenCellForColumn
          (∅, ∅, ∅) (elements unpredictedColumns);
  mret (acc, chosenCellForColumn).

(** ** The step function *)

(** The body of [if learn:].  [prevCellActivity] is another name of the
    object [prevActiveExternalCells], and [update] changes that object. *)
Definition learnPhase (prevActiveSegments learningSegments : gset Segment)
    (prevActiveCells prevActiveExternalCells prevWinnerCells : ref)
    (winnerCells : gset Cell) (formInternalConnections : bool) : St unit :=
  let prevCellActivity := prevActiveExternalCells in
  _ ← (if formInternalConnections then
         winners ← get_set prevWinnerCells;
         set_update prevCellActivity winners
       else mret tt);
  internal ← get_set prevActiveCells;
  external ← get_set prevActiveExternalCells;
  growth ← get_set prevCellActivity;
  call_connections (fun g =>
    (tt, learnOnSegments prevActiveSegments learningSegments
           (internal ∪ external) winnerCells growth g)).

(** What [computeFn] returns: [activeCells], [winnerCells],
    [activeSegments], [predictiveCells], [predictedColumns], all
    created by the call, and the dict [chosenCellForColumn]. *)
Record StepResult : Type := mkStepResult {
  res_activeCells : gset Cell;
  res_winnerCells : gset Cell;
  res_activeSegments : gset Segment;
  res_predictiveCells : gset Cell;
  res_predictedColumns : gset Z;
  res_chosenCellForColumn : ref
}.

(** [computeFn].  Its sets of cells are objects of the caller, given by
    reference; [connections] is the graph of the store. *)
Definition computeFn (activeColumns : gset Z)
    (activeExternalCells prevActiveExternalCells prevPredictiveCells : ref)
    (prevActiveSegments : gset Segment)
    (prevActiveCells prevWinnerCells : ref)
    (formInternalConnections learnOnOneCell : bool)
    (chosenCellForColumn : ref) (learn : bool) : St StepResult :=
  let activeCells : gset Cell := ∅ in
  let winnerCells : gset Cell := ∅ in
  predictive ← get_set prevPredictiveCells;
  let '(_activeCells, _winnerCells, predictedColumns) :=
    activateCorrectlyPredictiveCells predictive activeColumns in
  let activeCells := activeCells ∪ _activeCells in
  let winnerCells := winnerCells ∪ _winnerCells in
  internal ← get_set prevActiveCells;
  external ← get_set prevActiveExternalCells;
  '(_activeCells, _winnerCells, learningSegments, chosenCellForColumn) ←
    burstColumns activeColumns predictedColumns (internal ∪ external)
                 learnOnOneCell chosenCellForColumn;
  let activeCells := activeCells ∪ _activeCells in
  let winnerCells := winnerCells ∪ _winnerCells in
  _ ← (if learn then
         learnPhase prevActiveSegments learningSegments prevActiveCells
                    prevActiveExternalCells prevWinnerCells winnerCells
                    formInternalConnections
       else mret tt);
  externalNow ← get_set activeExternalCells;
  '(activeSegments, predictiveCells) ←
    read_connections (computePredictiveCells (activeCells ∪ externalNow));
  mret (mkStepResult activeCells winnerCells activeSegments predictiveCells
                     predictedColumns chosenCellForColumn).

(** ** The layer *)

(** The fields of [self].  A field that holds a set of cells or the
    dict holds a reference to the object. *)
Record GeneralTemporalMemory : Type := mkGTM {
  self_activeCells : ref;
  self_winnerCells : ref;
  self_activeSegments : gset Segment;
  self_predictiveCells : ref;
  self_activeExternalCells : ref;
  self_learnOnOneCell : bool;
  self_chosenCellForColumn : ref;
  self_unpredictedActiveColumns : gset Z;
  self_predictedActiveCells : ref
}.

(** [if not activeExternalCells: activeExternalCells = set()]: [None]
    and the empty set are both false. *)
Definition normalizeExternalCells (activeExternalCells : option (gset Z)) : gset Z :=
  match activeExternalCells with
  | None => ∅
  | Some s => if bool_decide (s = ∅) then ∅ else s
  end.

(** [compute].  The set that [reindexActiveExternalCells] returns and
    the sets that [computeFn] returns are new objects; they enter the
    store where [compute] binds them: the first is handed to [computeFn]
    by reference, the others are assigned to fields of [self]. *)
Definition compute(self : GeneralTemporalMemory) (activeColumns : gset Z)
    (activeExternalCells : option (gset Z))
    (formInternalConnections learn : bool) : St GeneralTemporalMemory :=
  let activeExternalCells := normalizeExternalCells activeExternalCells in
  activeExternalCells ← new_set (reindexActiveExternalCells activeExternalCells);
  res ← computeFn activeColumns activeExternalCells
          (self_activeExternalCells self) (self_predictiveCells self)
          (self_activeSegments self) (self_activeCells self)
          (self_winnerCells self) formInternalConnections
          (self_learnOnOneCell self) (self_chosenCellForColumn self) learn;
  let unpredictedActiveColumns := activeColumns ∖ res_predictedColumns res in
  predictive ← get_set (self_predictiveCells self);
  predictedActiveCells ← new_set (predictive ∩ res_activeCells res);
  activeCells ← new_set (res_activeCells res);
  winnerCells ← new_set (res_winnerCells res);
  predictiveCells ← new_set (res_predictiveCells res);
  mret (mkGTM activeCells winnerCells (res_activeSegments res) predictiveCells
              activeExternalCells (self_learnOnOneCell self)
              (res_chosenCellForColumn res) unpredictedActiveColumns
              predictedActiveCells).

(** Modelled from the spec: [reset] of the base class, which the sources
    here do not contain; it clears the per-step state the base class
    owns (active, winner and predictive cells and active segments). *)
Definition base_reset (self : GeneralTemporalMemory) : St GeneralTemporalMemory :=
  activeCells ← new_set ∅;
  winnerCells ← new_set ∅;
  predictiveCells ← new_set ∅;
  mret (mkGTM activeCells winnerCells ∅ predictiveCells
              (self_activeExternalCells self) (self_learnOnOneCell self)
              (self_chosenCellForColumn self) (self_unpredictedActiveColumns self)
              (self_predictedActiveCells self)).

(** [reset]. *)
Definition reset (self : GeneralTemporalMemory) : St GeneralTemporalMemory :=
  self ← base_reset self;
  activeExternalCells ← new_set ∅;
  chosenCellForColumn ← new_dict;
  let unpredictedActiveColumns : gset Z := ∅ in
  predictedActiveCells ← new_set ∅;
  mret (mkGTM (self_activeCells self) (self_winnerCells self)
              (self_activeSegments self) (self_predictiveCells self)
              activeExternalCells (self_learnOnOneCell self)
              chosenCellForColumn unpredictedActiveColumns predictedActiveCells).

(** [__init__]: the base class sets its per-step state, then the layer
    sets its own fields. *)
Definition init (learnOnOneCell : bool) : St GeneralTemporalMemory :=
  activeCells ← new_set ∅;
  winnerCells ← new_set ∅;
  predictiveCells ← new_set ∅;
  activeExternalCells ← new_set ∅;
  chosenCellForColumn ← new_dict;
  predictedActiveCells ← new_set ∅;
  mret (mkGTM activeCells winnerCells ∅ predictiveCells activeExternalCells
              learnOnOneCell chosenCellForColumn ∅ predictedActiveCells).

(** The call of [computeFn] that [compute] makes: its result and the
    store it leaves, before [compute] assigns the fields of [self]. *)
Definition compute_call (self : GeneralTemporalMemory) (activeColumns : gset Z)
    (activeExternalCells : option (gset Z))
    (formInternalConnections learn : bool) : St StepResult :=
  let activeExternalCells := normalizeExternalCells activeExternalCells in
  activeExternalCells ← new_set (reindexActiveExternalCells activeExternalCells);
  computeFn activeColumns activeExternalCells
    (self_activeExternalCells self) (self_predictiveCells self)
    (self_activeSegments self) (self_activeCells self)
    (self_winnerCells self) formInternalConnections
    (self_learnOnOneCell self) (self_chosenCellForColumn self) learn.

(** Reading a field of [self] that holds a set of cells. *)
Definition contents (w : World) (r : ref) : gset Cell := cellsets w !!! r.

Definition dict_contents (w : World) (r : ref) : gmap Z Cell := dicts w !!! r.

End Layer.

(** ** A small base class to run the layer on

    The scenario topology of two columns of two cells each
    ([numberOfCells = 4]), with a connectivity graph kept as the list of
    its segments in creation order. *)
Module Toy.

(** A segment with its synapses: presynaptic cell and permanence. *)
Record ToySegment : Type := mkToySegment {
  ts_segment : Segment;
  ts_synapses : list (Cell * Z)
}.

Definition columnForCell (c : Cell) : Z := idx c `div` 2.

(** The number of synapses of a segment whose presynaptic cell is in [input]. *)
Definition activity (input : list Cell) (s : ToySegment) : Z :=
  Z.of_nat (length (filter (fun p => p.1 ∈ input) (ts_synapses s))).

(** Modelled from the spec: [mostActiveSegmentForCells], the segment of
    one of the candidate cells with the most active synapses, if that
    number reaches the threshold; the earliest such segment wins a tie. *)
Definition toy_mostActiveSegmentForCells (g : list ToySegment)
    (cells input : list Cell) (threshold : Z) : option Segment :=
  fst (foldl (fun best s =>
               let n := activity input s in
               if bool_decide (cell (ts_segment s) ∈ cells) && (best.2 <? n)
               then (Some (ts_segment s), n) else best)
             (None, threshold - 1) g).

(** Modelled from the spec: [createSegment], a new segment owned by the cell. *)
Definition toy_createSegment (g : list ToySegment) (c : Cell)
    : Segment * list ToySegment :=
  let s := mkSegment (Z.of_nat (length g)) c in
  (s, g ++ [mkToySegment s []]).

Definition segmentCount (g : list ToySegment) (c : Cell) : nat :=
  length (filter (fun s => cell (ts_segment s) = c) g).

(** Modelled from the spec: [leastUsedCell], a cell of [cells] with the
    fewest segments, the first one in the order of [elements]. *)
Definition toy_leastUsedCell (cells : gset Cell) (g : list ToySegment) : Cell :=
  match elements cells with
  | [] => inhabitant
  | c :: rest =>
      foldl (fun best c' =>
               if (segmentCount g c' <? segmentCount g best)%nat then c' else best)
            c rest
  end.

(** Modelled from the spec: [activateCorrectlyPredictiveCells], the
    predictive cells of the active columns become active and winners,
    and their columns are the predicted ones. *)
Definition toy_activateCorrectlyPredictiveCells (prevPredictiveCells : gset Cell)
    (activeColumns : gset Z) : gset Cell * gset Cell * gset Z :=
  let hit : gset Cell :=
    filter (fun c => columnForCell c ∈ activeColumns) prevPredictiveCells in
  (hit, hit, set_map columnForCell hit).

(** Modelled from the spec: [learnOnSegments].  A segment that was active
    or is learning has each synapse strengthened when its presynaptic
    cell is in [prevActiveCells] and weakened otherwise; a learning
    segment then grows synapses to the cells of the growth pool it has
    no synapse to. *)
Definition toy_learnOnSegments (prevActiveSegments learningSegments : gset Segment)
    (prevActiveCells winnerCells growthPool : gset Cell)
    (g : list ToySegment) : list ToySegment :=
  (fun s =>
     if bool_decide (ts_segment s ∈ prevActiveSegments ∪ learningSegments) then
       let adapted :=
         (fun p : Cell * Z =>
            if bool_decide (p.1 ∈ prevActiveCells) then (p.1, p.2 + 1)
            else (p.1, p.2 - 1)) <$> ts_synapses s in
       let grown :=
         if bool_decide (ts_segment s ∈ learningSegments) then
           (fun c => (c, 1)) <$>
             filter (fun c => c ∉ (fst <$> adapted)) (elements growthPool)
         else [] in
       mkToySegment (ts_segment s) (adapted ++ grown)
     else s) <$> g.

(** Modelled from the spec: [computePredictiveCells], the segments with
    at least one active synapse and the cells that own them. *)
Definition toy_computePredictiveCells (activeCells : gset Cell)
    (g : list ToySegment) : gset Segment * gset Cell :=
  let active := filter (fun s => 1 <=? activity (elements activeCells) s) g in
  (list_to_set (ts_segment <$> active),
   list_to_set ((fun s => cell (ts_segment s)) <$> active)).

#[local] Instance toyTM : TemporalMemory := {|
  Connections := list ToySegment;
  numberOfCells := 4;
  minThreshold := 1;
  cellsForColumn := fun column =>
    {[ ConnectionsCell (2 * column); ConnectionsCell (2 * column + 1) ]};
  leastUsedCell := toy_leastUsedCell;
  mostActiveSegmentForCells := toy_mostActiveSegmentForCells;
  createSegment := toy_createSegment;
  activateCorrectlyPredictiveCells := toy_activateCorrectlyPredictiveCells;
  learnOnSegments := toy_learnOnSegments;
  computePredictiveCells := toy_computePredictiveCells
|}.

(** The store of a layer that was just constructed. *)
Definition emptyWorld : World := mkWorld ∅ ∅ [].

Definition fresh_layer : GeneralTemporalMemory * World := init true emptyWorld.

(** The scenario: column 0 is active in two steps in a row, with no
    external input, learning, and no reset in between. *)
Definition step1 : GeneralTemporalMemory * World :=
  compute fresh_layer.1 {[ 0 ]} None true true fresh_layer.2.

Definition step2 : GeneralTemporalMemory * World :=
  compute step1.1 {[ 0 ]} None true true step1.2.

(** A direct call of [computeFn].  The caller holds five set objects:
    1 [activeExternalCells], 2 [prevActiveExternalCells],
    3 [prevPredictiveCells] and 4 [prevActiveCells], all empty, and
    5 [prevWinnerCells] with cell 1; dict 1 is empty.  The graph has one
    segment, on cell 2, with a synapse to cell 1 of permanence 5, and
    that segment was active in the previous step. *)
Definition seg0 : Segment := mkSegment 0 (ConnectionsCell 2).

Definition callWorld : World :=
  mkWorld (list_to_map [(1%positive, ∅); (2%positive, ∅); (3%positive, ∅);
                        (4%positive, ∅); (5%positive, {[ ConnectionsCell 1 ]})])
          {[ 1%positive := ∅ ]}
          [mkToySegment seg0 [(ConnectionsCell 1, 5)]].

Definition directCall (formInternalConnections learn : bool) : StepResult * World :=
  computeFn {[ 0 ]} 1%positive 2%positive 3%positive {[ seg0 ]}
            4%positive 5%positive formInternalConnections true 1%positive
            learn callWorld.

(** A call of [computeFn] on the layer after step 2, without learning
    and with the same empty set as current and previous external cells.
    Cell 1 of column 0 is predictive then. *)
Definition inferenceCall : StepResult * World :=
  computeFn {[ 0 ]} (self_activeExternalCells step2.1)
            (self_activeExternalCells step2.1) (self_predictiveCells step2.1)
            (self_activeSegments step2.1) (self_activeCells step2.1)
            (self_winnerCells step2.1) true true
            (self_chosenCellForColumn step2.1) false step2.2.

(** The layer of the scenario after a reset. *)
Definition afterReset : GeneralTemporalMemory * World := reset step2.1 step2.2.

(** A learning call of [computeFn] on the layer after step 1, where the
    winner, cell 1, is one of the active cells 0 and 1; an empty set
    stands for the current external cells. *)
Definition learnCall : StepResult * World :=
  computeFn {[ 0 ]} (self_predictedActiveCells step1.1)
            (self_activeExternalCells step1.1) (self_predictiveCells step1.1)
            (self_activeSegments step1.1) (self_activeCells step1.1)
            (self_winnerCells step1.1) true true
            (self_chosenCellForColumn step1.1) true step1.2.

End Toy.

(** ** What the layer asks of the base class

    The contracts of the graph operations that the winner selection
    relies on: the segment found belongs to one of the candidate cells, a
    created segment belongs to the cell it was created on, and the least
    used cell of a non-empty set is one of its cells. *)
Definition segment_lookup_sound (TM : TemporalMemory) : Prop :=
  forall g cells input threshold s,
    mostActiveSegmentForCells g cells input threshold = Some s -> cell s ∈ cells.

Definition createSegment_owner (TM : TemporalMemory) : Prop :=
  forall g c, cell (createSegment g c).1 = c.

Definition leastUsedCell_member (TM : TemporalMemory) : Prop :=
  forall cells g, cells ≠ ∅ -> leastUsedCell cells g ∈ cells.

(** Every entry of a chosen-cell dict is a cell of its own column. *)
Definition chosen_in_column {TM : TemporalMemory} (chosen : gmap Z Cell) : Prop :=
  forall column W, chosen !! column = Some W -> W ∈ cellsForColumn column.

(** The fields of [self] name live, pairwise different set objects and
    a live dict: what [__init__] sets up and every method keeps. *)
Definition layer_refs (self : GeneralTemporalMemory) : list ref :=
  [self_activeCells self; self_winnerCells self; self_predictiveCells self;
   self_activeExternalCells self; self_predictedActiveCells self].

Definition layer_wf {TM : TemporalMemory} (w : World) (self : GeneralTemporalMemory) : Prop :=
  NoDup (layer_refs self) /\
  (forall r, r ∈ layer_refs self -> r ∈ dom (cellsets w)) /\
  self_chosenCellForColumn self ∈ dom (dicts w).

(** Closes [NoDup] of a short list from the inequalities at hand. *)
Ltac distinct :=
  repeat apply NoDup_cons_2; try apply NoDup_nil_2;
  rewrite ?not_elem_of_cons; repeat split; try apply not_elem_of_nil;
  first [ assumption | apply not_eq_sym; assumption ].

(** * Facts about the store *)

Section StoreFacts.

Context {TM : TemporalMemory}.

Lemma fresh_ne (D : gset positive) (r x : positive) : r ∉ D -> x ∈ D -> x ≠ r.
Proof. intros Hr Hx ->. exact (Hr Hx). Qed.

Lemma alloc_step (D D' : gset positive) (r : positive) :
  {[ r ]} ∪ D ⊆ D' -> r ∈ D' /\ D ⊆ D'.
Proof.
  intros Hsub. split.
  - apply Hsub, elem_of_union_l, elem_of_singleton_2. reflexivity.
  - intros x Hx. apply Hsub, elem_of_union_r, Hx.
Qed.

(** Five objects created one after the other are pairwise different and
    all live at the end. *)
Lemma alloc_chain (D0 D1 D2 D3 D4 D5 : gset positive) (r1 r2 r3 r4 r5 : positive) :
  r1 ∉ D0 -> {[ r1 ]} ∪ D0 ⊆ D1 ->
  r2 ∉ D1 -> {[ r2 ]} ∪ D1 ⊆ D2 ->
  r3 ∉ D2 -> {[ r3 ]} ∪ D2 ⊆ D3 ->
  r4 ∉ D3 -> {[ r4 ]} ∪ D3 ⊆ D4 ->
  r5 ∉ D4 -> {[ r5 ]} ∪ D4 ⊆ D5 ->
  NoDup [r1; r2; r3; r4; r5] /\ NoDup [r3; r4; r5; r1; r2] /\
  (forall r, r ∈ [r1; r2; r3; r4; r5] -> r ∈ D5).
Proof.
  intros H1 S1 H2 S2 H3 S3 H4 S4 H5 S5.
  apply alloc_step in S1 as [M1 I1]. apply alloc_step in S2 as [M2 I2].
  apply alloc_step in S3 as [M3 I3]. apply alloc_step in S4 as [M4 I4].
  apply alloc_step in S5 as [M5 I5].
  pose proof (I2 _ M1) as M12. pose proof (I3 _ M12) as M13.
  pose proof (I4 _ M13) as M14. pose proof (I5 _ M14) as M15.
  pose proof (I3 _ M2) as M23. pose proof (I4 _ M23) as M24.
  pose proof (I5 _ M24) as M25.
  pose proof (I4 _ M3) as M34. pose proof (I5 _ M34) as M35.
  pose proof (I5 _ M4) as M45.
  pose proof (fresh_ne _ _ _ H2 M1) as N12.
  pose proof (fresh_ne _ _ _ H3 M12) as N13.
  pose proof (fresh_ne _ _ _ H3 M2) as N23.
  pose proof (fresh_ne _ _ _ H4 M13) as N14.
  pose proof (fresh_ne _ _ _ H4 M23) as N24.
  pose proof (fresh_ne _ _ _ H4 M3) as N34.
  pose proof (fresh_ne _ _ _ H5 M14) as N15.
  pose proof (fresh_ne _ _ _ H5 M24) as N25.
  pose proof (fresh_ne _ _ _ H5 M34) as N35.
  pose proof (fresh_ne _ _ _ H5 M4) as N45.
  split; [distinct | split; [distinct |]].
  intros r Hr. rewrite !elem_of_cons in Hr.
  destruct Hr as [-> | [-> | [-> | [-> | [-> | Hr]]]]]; try assumption.
  by apply elem_of_nil in Hr.
Qed.

Lemma ConnectionsCell_idx (c : Cell) : ConnectionsCell (idx c) = c.
Proof. destruct c; reflexivity. Qed.

Lemma new_set_ref (s : gset Cell) (w : World) :
  (new_set s w).1 = fresh (dom (cellsets w)).
Proof. reflexivity. Qed.

Lemma new_set_fresh (s : gset Cell) (w : World) :
  (new_set s w).1 ∉ dom (cellsets w).
Proof. apply is_fresh. Qed.

Lemma new_set_contents (s : gset Cell) (w : World) :
  contents (new_set s w).2 (new_set s w).1 = s.
Proof. unfold contents, new_set; simpl. apply lookup_total_insert_eq. Qed.

Lemma new_set_other (s : gset Cell) (w : World) (r : ref) :
  r ≠ (new_set s w).1 -> contents (new_set s w).2 r = contents w r.
Proof.
  intros Hne. unfold contents, new_set; simpl.
  rewrite lookup_total_insert_ne; [reflexivity | intros E; apply Hne; symmetry; exact E].
Qed.

Lemma new_set_live (s : gset Cell) (w : World) (r : ref) :
  r ∈ dom (cellsets w) -> contents (new_set s w).2 r = contents w r.
Proof.
  intros Hin. apply new_set_other. intros ->. exact (new_set_fresh s w Hin).
Qed.

Lemma new_set_dom (s : gset Cell) (w : World) :
  dom (cellsets (new_set s w).2) = {[ (new_set s w).1 ]} ∪ dom (cellsets w).
Proof. unfold new_set; simpl. apply dom_insert_L. Qed.

Lemma new_set_live_ref (s : gset Cell) (w : World) :
  (new_set s w).1 ∈ dom (cellsets (new_set s w).2).
Proof.
  rewrite new_set_dom. apply elem_of_union_l, elem_of_singleton_2. reflexivity.
Qed.

Lemma new_set_keeps (s : gset Cell) (w : World) (r : ref) :
  r ∈ dom (cellsets w) -> r ∈ dom (cellsets (new_set s w).2).
Proof. intros Hr. rewrite new_set_dom. apply elem_of_union_r, Hr. Qed.

Lemma new_set_grows (s : gset Cell) (w : World) :
  {[ (new_set s w).1 ]} ∪ dom (cellsets w) ⊆ dom (cellsets (new_set s w).2).
Proof. by rewrite new_set_dom. Qed.

Lemma new_set_dicts (s : gset Cell) (w : World) :
  dicts (new_set s w).2 = dicts w.
Proof. reflexivity. Qed.

Lemma new_set_connections (s : gset Cell) (w : World) :
  connections (new_set s w).2 = connections w.
Proof. reflexivity. Qed.

Lemma new_dict_contents (w : World) :
  dict_contents (new_dict w).2 (new_dict w).1 = ∅.
Proof. unfold dict_contents, new_dict; simpl. apply lookup_total_insert_eq. Qed.

Lemma set_update_contents (r r' : ref) (s : gset Cell) (w : World) :
  contents (set_update r s w).2 r' =
  if decide (r = r') then contents w r ∪ s else contents w r'.
Proof.
  unfold contents, set_update; simpl. case_decide as Hr.
  - subst r'. apply lookup_total_insert_eq.
  - apply lookup_total_insert_ne, Hr.
Qed.

End StoreFacts.

(** * Facts about bursting *)

Section BurstFacts.

Context {TM : TemporalMemory}.

(** [bestSegmentFor] touches the graph only. *)
Lemma bestSegmentFor_frame (cells prev : gset Cell) (w : World) :
  cellsets (bestSegmentFor cells prev w).2 = cellsets w /\
  dicts (bestSegmentFor cells prev w).2 = dicts w.
Proof.
  unfold bestSegmentFor, mbind, St_bind, read_connections, call_connections, mret, St_ret.
  destruct (mostActiveSegmentForCells _ _ _ _); simpl; [done |].
  destruct (createSegment _ _); done.
Qed.

(** Found or created, the segment belongs to one of the candidates. *)
Lemma bestSegmentFor_owner (cells prev : gset Cell) (w : World) :
  segment_lookup_sound TM -> createSegment_owner TM -> leastUsedCell_member TM ->
  cells ≠ ∅ -> cell (bestSegmentFor cells prev w).1 ∈ cells.
Proof.
  intros Hlookup Hcreate Hleast Hne.
  unfold bestSegmentFor, mbind, St_bind, read_connections, call_connections, mret, St_ret.
  destruct (mostActiveSegmentForCells _ _ _ _) as [s|] eqn:Hfound; simpl.
  - apply Hlookup in Hfound. by apply elem_of_elements in Hfound.
  - specialize (Hcreate (connections w) (leastUsedCell cells (connections w))).
    destruct (createSegment _ _) as [s g]; simpl in *. rewrite Hcreate.
    by apply Hleast.
Qed.


Lemma bestSegmentFor_some (cells prev : gset Cell) (w : World) (s : Segment) :
  mostActiveSegmentForCells (connections w) (elements cells) (elements prev)
                            minThreshold = Some s ->
  bestSegmentFor cells prev w = (s, w).
Proof.
  intros Hsome.
  unfold bestSegmentFor, mbind, St_bind, read_connections, mret, St_ret.
  by rewrite Hsome.
Qed.

(** One iteration, spelled out. *)
Lemma burstColumn_unfold (prev : gset Cell) (lo : bool) (d : ref)
    (acc : BurstAcc) (column : Z) (w : World) :
  let cells := candidateCells lo (dict_contents w d) column in
  let best := bestSegmentFor cells prev w in
  burstColumn prev lo d acc column w =
  ((acc.1.1 ∪ cellsForColumn column, acc.1.2 ∪ {[ cell best.1 ]}, acc.2 ∪ {[ best.1 ]}),
   mkWorld (cellsets w)
           (<[d := <[column := cell best.1]> (dict_contents w d)]> (dicts w))
           (connections best.2)).
Proof.
  destruct acc as [[a wi] l]. simpl.
  unfold burstColumn, mbind, St_bind, get_dict, dict_setitem, mret, St_ret, dict_contents.
  pose proof (bestSegmentFor_frame (candidateCells lo (dicts w !!! d) column) prev w) as [Hc Hd].
  destruct (bestSegmentFor _ _ _) as [s w1]; simpl in *.
  by rewrite ConnectionsCell_idx, Hc, Hd.
Qed.

Lemma candidateCells_pinned (chosen : gmap Z Cell) (column : Z) (W : Cell) :
  chosen !! column = Some W -> candidateCells true chosen column = {[ W ]}.
Proof.
  intros Hc. unfold candidateCells. simpl.
  rewrite bool_decide_eq_true_2 by (apply elem_of_dom; eauto).
  by rewrite (lookup_total_correct _ _ _ Hc).
Qed.

Lemma candidateCells_unpinned (lo : bool) (chosen : gmap Z Cell) (column : Z) :
  chosen !! column = None -> candidateCells lo chosen column = cellsForColumn column.
Proof.
  intros Hc. unfold candidateCells.
  rewrite bool_decide_eq_false_2 by (by apply not_elem_of_dom).
  by rewrite andb_false_r.
Qed.

Lemma candidateCells_all (chosen : gmap Z Cell) (column : Z) :
  candidateCells false chosen column = cellsForColumn column.
Proof. reflexivity. Qed.


(** The loop leaves every set object and every other dict as it was. *)
Lemma burstColumns_loop_frame (prev : gset Cell) (lo : bool) (d : ref)
    (columns : list Z) (acc : BurstAcc) (w : World) :
  cellsets (burstColumns_loop prev lo d acc columns w).2 = cellsets w /\
  (forall d', d' ≠ d ->
     dicts (burstColumns_loop prev lo d acc columns w).2 !! d' = dicts w !! d').
Proof.
  revert acc w. induction columns as [|c columns IH]; intros acc w; [done |].
  simpl. unfold mbind, St_bind.
  pose proof (burstColumn_unfold prev lo d acc c w) as Hstep; simpl in Hstep.
  rewrite Hstep. destruct (IH
    (acc.1.1 ∪ cellsForColumn c,
     acc.1.2 ∪ {[cell (bestSegmentFor (candidateCells lo (dict_contents w d) c) prev w).1]},
     acc.2 ∪ {[(bestSegmentFor (candidateCells lo (dict_contents w d) c) prev w).1]})
    (mkWorld (cellsets w)
       (<[d := <[c := cell (bestSegmentFor (candidateCells lo (dict_contents w d) c) prev w).1]>
                 (dict_contents w d)]> (dicts w))
       (connections (bestSegmentFor (candidateCells lo (dict_contents w d) c) prev w).2)))
    as [IHc IHd].
  split; [exact IHc |].
  intros d' Hd'. rewrite (IHd d' Hd'). simpl. by rewrite lookup_insert_ne.
Qed.

(** Winners only accumulate. *)
Lemma burstColumns_loop_winners_mono (prev : gset Cell) (lo : bool) (d : ref)
    (columns : list Z) (acc : BurstAcc) (w : World) :
  acc.1.2 ⊆ (burstColumns_loop prev lo d acc columns w).1.1.2.
Proof.
  revert acc w. induction columns as [|c columns IH]; intros acc w; [done |].
  simpl. unfold mbind, St_bind.
  pose proof (burstColumn_unfold prev lo d acc c w) as Hstep; simpl in Hstep.
  rewrite Hstep. etrans; [| apply IH]. simpl. set_solver.
Qed.

(** A column that does not burst keeps its entry of the dict. *)
Lemma burstColumns_loop_other (prev : gset Cell) (lo : bool) (d : ref)
    (columns : list Z) (acc : BurstAcc) (w : World) (column : Z) :
  column ∉ columns ->
  dict_contents (burstColumns_loop prev lo d acc columns w).2 d !! column =
  dict_contents w d !! column.
Proof.
  revert acc w. induction columns as [|c columns IH]; intros acc w Hnot; [done |].
  apply not_elem_of_cons in Hnot as [Hne Hnot].
  simpl. unfold mbind, St_bind.
  pose proof (burstColumn_unfold prev lo d acc c w) as Hstep; simpl in Hstep.
  rewrite Hstep, IH by done.
  unfold dict_contents at 1; simpl. rewrite lookup_total_insert_eq.
  by rewrite lookup_insert_ne.
Qed.

(** Every column of the loop gets an entry, and the cell entered is one
    of the winners returned. *)
Lemma burstColumns_loop_entry (prev : gset Cell) (lo : bool) (d : ref)
    (columns : list Z) (acc : BurstAcc) (w : World) (column : Z) :
  column ∈ columns ->
  exists winner,
    dict_contents (burstColumns_loop prev lo d acc columns w).2 d !! column = Some winner /\
    winner ∈ (burstColumns_loop prev lo d acc columns w).1.1.2.
Proof.
  revert acc w. induction columns as [|c columns IH]; intros acc w Hin.
  { by apply elem_of_nil in Hin. }
  destruct (decide (column ∈ columns)) as [Hrest | Hrest].
  { simpl. unfold mbind, St_bind.
    destruct (burstColumn prev lo d acc c w) as [acc1 w1]. by apply IH. }
  apply elem_of_cons in Hin as [-> | Hin]; [| done].
  simpl. unfold mbind, St_bind.
  pose proof (burstColumn_unfold prev lo d acc c w) as Hstep; simpl in Hstep.
  rewrite Hstep.
  exists (cell (bestSegmentFor (candidateCells lo (dict_contents w d) c) prev w).1).
  split.
  - rewrite burstColumns_loop_other by done.
    unfold dict_contents at 1; simpl. rewrite lookup_total_insert_eq.
    apply lookup_insert_eq.
  - eapply burstColumns_loop_winners_mono. simpl. set_solver.
Qed.

(** With [learnOnOneCell], an entry of the dict survives the loop. *)
Lemma burstColumns_loop_pinned (prev : gset Cell) (d : ref)
    (columns : list Z) (acc : BurstAcc) (w : World) (column : Z) (W : Cell) :
  segment_lookup_sound TM -> createSegment_owner TM -> leastUsedCell_member TM ->
  dict_contents w d !! column = Some W ->
  dict_contents (burstColumns_loop prev true d acc columns w).2 d !! column = Some W.
Proof.
  intros Hlookup Hcreate Hleast.
  revert acc w. induction columns as [|c columns IH]; intros acc w Hentry; [done |].
  simpl. unfold mbind, St_bind.
  pose proof (burstColumn_unfold prev true d acc c w) as Hstep; simpl in Hstep.
  rewrite Hstep. apply IH.
  unfold dict_contents at 1; simpl. rewrite lookup_total_insert_eq.
  destruct (decide (c = column)) as [-> | Hne]; [| by rewrite lookup_insert_ne].
  rewrite lookup_insert_eq. f_equal.
  rewrite (candidateCells_pinned _ _ _ Hentry).
  pose proof (bestSegmentFor_owner {[W]} prev w Hlookup Hcreate Hleast) as Hown.
  assert (({[W]} : gset Cell) ≠ ∅) as Hne by set_solver.
  apply Hown in Hne. set_solver.
Qed.

(** The dict stays live through the loop. *)
Lemma burstColumns_loop_dict_live (prev : gset Cell) (lo : bool) (d : ref)
    (columns : list Z) (acc : BurstAcc) (w : World) (d' : ref) :
  d' ∈ dom (dicts w) ->
  d' ∈ dom (dicts (burstColumns_loop prev lo d acc columns w).2).
Proof.
  revert acc w. induction columns as [|c columns IH]; intros acc w Hlive; [done |].
  simpl. unfold mbind, St_bind.
  pose proof (burstColumn_unfold prev lo d acc c w) as Hstep; simpl in Hstep.
  rewrite Hstep. apply IH. simpl. rewrite dom_insert_L. set_solver.
Qed.

End BurstFacts.

(** * Facts about the step function *)

Section StepFacts.

Context {TM : TemporalMemory}.

Lemma burstColumns_unfold (activeColumns predictedColumns : gset Z)
    (prev : gset Cell) (lo : bool) (d : ref) (w : World) :
  burstColumns activeColumns predictedColumns prev lo d w =
  ((burstColumns_loop prev lo d (∅, ∅, ∅)
      (elements (activeColumns ∖ predictedColumns)) w).1, d,
   (burstColumns_loop prev lo d (∅, ∅, ∅)
      (elements (activeColumns ∖ predictedColumns)) w).2).
Proof.
  unfold burstColumns, mbind, St_bind, mret, St_ret.
  by destruct (burstColumns_loop _ _ _ _ _ w).
Qed.

Lemma burstColumns_cellsets (activeColumns predictedColumns : gset Z)
    (prev : gset Cell) (lo : bool) (d : ref) (w : World) :
  cellsets (burstColumns activeColumns predictedColumns prev lo d w).2 = cellsets w.
Proof. rewrite burstColumns_unfold. simpl. apply burstColumns_loop_frame. Qed.

(** The learning phase: the object [prevActiveExternalCells] is updated
    with the previous winners when [formInternalConnections] holds, and
    the pools handed to [learnOnSegments] are read after that update. *)
Lemma learnPhase_unfold (prevActiveSegments learningSegments : gset Segment)
    (prevActiveCells prevActiveExternalCells prevWinnerCells : ref)
    (winnerCells : gset Cell) (formInternalConnections : bool) (w : World) :
  let w1 := if formInternalConnections
            then (set_update prevActiveExternalCells (contents w prevWinnerCells) w).2
            else w in
  learnPhase prevActiveSegments learningSegments prevActiveCells
             prevActiveExternalCells prevWinnerCells winnerCells
             formInternalConnections w =
  (tt, mkWorld (cellsets w1) (dicts w)
         (learnOnSegments prevActiveSegments learningSegments
            (contents w1 prevActiveCells ∪ contents w1 prevActiveExternalCells)
            winnerCells (contents w1 prevActiveExternalCells) (connections w))).
Proof.
  unfold learnPhase, mbind, St_bind, get_set, set_update, call_connections,
    mret, St_ret, contents.
  by destruct formInternalConnections.
Qed.

(** The world in which [computeFn] ends: the one bursting leaves, then
    the learning phase when [learn] holds. *)
Lemma computeFn_unfold (activeColumns : gset Z)
    (activeExternalCells prevActiveExternalCells prevPredictiveCells : ref)
    (prevActiveSegments : gset Segment) (prevActiveCells prevWinnerCells : ref)
    (formInternalConnections learnOnOneCell : bool)
    (chosenCellForColumn : ref) (learn : bool) (w : World) :
  let predicted :=
    activateCorrectlyPredictiveCells (contents w prevPredictiveCells) activeColumns in
  let burst :=
    burstColumns activeColumns predicted.2
      (contents w prevActiveCells ∪ contents w prevActiveExternalCells)
      learnOnOneCell chosenCellForColumn w in
  let activeCells := ∅ ∪ predicted.1.1 ∪ burst.1.1.1.1 in
  let winnerCells := ∅ ∪ predicted.1.2 ∪ burst.1.1.1.2 in
  let w3 :=
    if learn then
      (learnPhase prevActiveSegments burst.1.1.2 prevActiveCells
                  prevActiveExternalCells prevWinnerCells winnerCells
                  formInternalConnections burst.2).2
    else burst.2 in
  let next :=
    computePredictiveCells (activeCells ∪ contents w3 activeExternalCells)
                           (connections w3) in
  computeFn activeColumns activeExternalCells prevActiveExternalCells
            prevPredictiveCells prevActiveSegments prevActiveCells prevWinnerCells
            formInternalConnections learnOnOneCell chosenCellForColumn learn w =
  (mkStepResult activeCells winnerCells next.1 next.2 predicted.2 burst.1.2, w3).
Proof.
  simpl.
  unfold computeFn, mbind, St_bind, get_set, read_connections, mret, St_ret, contents.
  destruct (activateCorrectlyPredictiveCells _ _) as [[a wi] pc]. simpl.
  destruct (burstColumns _ _ _ _ _ w) as [[[[ba bw] bl] bd] w2]. simpl.
  destruct learn.
  - destruct (learnPhase _ _ _ _ _ _ _ w2) as [[] w3]. simpl.
    by destruct (computePredictiveCells _ _).
  - by destruct (computePredictiveCells _ _).
Qed.

(** [computeFn] creates no set object; the only one it may change is
    [prevActiveExternalCells]. *)
Lemma computeFn_contents (activeColumns : gset Z)
    (activeExternalCells prevActiveExternalCells prevPredictiveCells : ref)
    (prevActiveSegments : gset Segment) (prevActiveCells prevWinnerCells : ref)
    (formInternalConnections learnOnOneCell : bool)
    (chosenCellForColumn : ref) (learn : bool) (w : World) (r : ref) :
  contents
    (computeFn activeColumns activeExternalCells prevActiveExternalCells
       prevPredictiveCells prevActiveSegments prevActiveCells prevWinnerCells
       formInternalConnections learnOnOneCell chosenCellForColumn learn w).2 r =
  if learn && formInternalConnections && bool_decide (r = prevActiveExternalCells)
  then contents w prevActiveExternalCells ∪ contents w prevWinnerCells
  else contents w r.
Proof.
  rewrite computeFn_unfold. simpl.
  destruct learn; simpl.
  - rewrite learnPhase_unfold. simpl.
    destruct formInternalConnections; simpl.
    + unfold contents at 1; simpl. fold (contents w).
      rewrite !burstColumns_cellsets.
      case_bool_decide as Hr.
      * subst r. unfold contents. by rewrite burstColumns_cellsets, lookup_total_insert_eq.
      * unfold contents. rewrite burstColumns_cellsets.
        rewrite lookup_total_insert_ne; [done | congruence].
    + unfold contents. by rewrite burstColumns_cellsets.
  - unfold contents. by rewrite burstColumns_cellsets.
Qed.

Lemma computeFn_dom (activeColumns : gset Z)
    (activeExternalCells prevActiveExternalCells prevPredictiveCells : ref)
    (prevActiveSegments : gset Segment) (prevActiveCells prevWinnerCells : ref)
    (formInternalConnections learnOnOneCell : bool)
    (chosenCellForColumn : ref) (learn : bool) (w : World) :
  dom (cellsets w) ⊆
  dom (cellsets
    (computeFn activeColumns activeExternalCells prevActiveExternalCells
       prevPredictiveCells prevActiveSegments prevActiveCells prevWinnerCells
       formInternalConnections learnOnOneCell chosenCellForColumn learn w).2).
Proof.
  rewrite computeFn_unfold. simpl.
  destruct learn; simpl.
  - rewrite learnPhase_unfold. simpl.
    destruct formInternalConnections; simpl.
    + rewrite burstColumns_cellsets, dom_insert_L. set_solver.
    + by rewrite burstColumns_cellsets.
  - by rewrite burstColumns_cellsets.
Qed.

(** The dict and the winners that bursting leaves are what [computeFn]
    returns, whatever [learn] and [formInternalConnections] are. *)
Lemma computeFn_burst (activeColumns : gset Z)
    (activeExternalCells prevActiveExternalCells prevPredictiveCells : ref)
    (prevActiveSegments : gset Segment) (prevActiveCells prevWinnerCells : ref)
    (formInternalConnections learnOnOneCell : bool)
    (chosenCellForColumn : ref) (learn : bool) (w : World) :
  let predicted :=
    activateCorrectlyPredictiveCells (contents w prevPredictiveCells) activeColumns in
  let burst :=
    burstColumns activeColumns predicted.2
      (contents w prevActiveCells ∪ contents w prevActiveExternalCells)
      learnOnOneCell chosenCellForColumn w in
  let out :=
    computeFn activeColumns activeExternalCells prevActiveExternalCells
      prevPredictiveCells prevActiveSegments prevActiveCells prevWinnerCells
      formInternalConnections learnOnOneCell chosenCellForColumn learn w in
  res_winnerCells out.1 = ∅ ∪ predicted.1.2 ∪ burst.1.1.1.2 /\
  res_predictedColumns out.1 = predicted.2 /\
  res_chosenCellForColumn out.1 = chosenCellForColumn /\
  dicts out.2 = dicts burst.2 /\
  (learn = false -> connections out.2 = connections burst.2).
Proof.
  simpl. rewrite computeFn_unfold. simpl.
  rewrite burstColumns_unfold. simpl.
  destruct learn; simpl; [| done].
  rewrite learnPhase_unfold. simpl. done.
Qed.

(** The pools that [learnOnSegments] receives when [learn] holds.  With
    [formInternalConnections] the previous winners are in the growth
    pool and, through the update of [prevActiveExternalCells], also in
    the pool of previous active cells. *)
Lemma computeFn_learn_pools (activeColumns : gset Z)
    (activeExternalCells prevActiveExternalCells prevPredictiveCells : ref)
    (prevActiveSegments : gset Segment) (prevActiveCells prevWinnerCells : ref)
    (formInternalConnections learnOnOneCell : bool)
    (chosenCellForColumn : ref) (w : World) :
  let predicted :=
    activateCorrectlyPredictiveCells (contents w prevPredictiveCells) activeColumns in
  let burst :=
    burstColumns activeColumns predicted.2
      (contents w prevActiveCells ∪ contents w prevActiveExternalCells)
      learnOnOneCell chosenCellForColumn w in
  let winners :=
    if formInternalConnections then contents w prevWinnerCells else ∅ in
  connections
    (computeFn activeColumns activeExternalCells prevActiveExternalCells
       prevPredictiveCells prevActiveSegments prevActiveCells prevWinnerCells
       formInternalConnections learnOnOneCell chosenCellForColumn true w).2 =
  learnOnSegments prevActiveSegments burst.1.1.2
    (contents w prevActiveCells ∪ contents w prevActiveExternalCells ∪ winners)
    (∅ ∪ predicted.1.2 ∪ burst.1.1.1.2)
    (contents w prevActiveExternalCells ∪ winners)
    (connections burst.2).
Proof.
  cbv zeta. rewrite computeFn_unfold. cbv zeta. cbn [fst snd].
  rewrite learnPhase_unfold. cbv zeta. cbn [fst snd connections].
  set (burst := burstColumns _ _ _ _ _ w).
  assert (forall r, contents burst.2 r = contents w r) as Hsame.
  { intros r. unfold contents. subst burst. by rewrite burstColumns_cellsets. }
  destruct formInternalConnections.
  - rewrite !set_update_contents, !Hsame.
    f_equal; repeat case_decide; subst; try done; set_solver.
  - rewrite !Hsame. f_equal; set_solver.
Qed.

End StepFacts.

(** * Facts about the layer *)

Section LayerFacts.

Context {TM : TemporalMemory}.

Lemma compute_unfold (self : GeneralTemporalMemory) (activeColumns : gset Z)
    (activeExternalCells : option (gset Z))
    (formInternalConnections learn : bool) (w : World) :
  let call := compute_call self activeColumns activeExternalCells
                           formInternalConnections learn w in
  let pa := new_set (contents call.2 (self_predictiveCells self)
                     ∩ res_activeCells call.1) call.2 in
  let ac := new_set (res_activeCells call.1) pa.2 in
  let wc := new_set (res_winnerCells call.1) ac.2 in
  let pc := new_set (res_predictiveCells call.1) wc.2 in
  compute self activeColumns activeExternalCells formInternalConnections learn w =
  (mkGTM ac.1 wc.1 (res_activeSegments call.1) pc.1
         (fresh (dom (cellsets w))) (self_learnOnOneCell self)
         (res_chosenCellForColumn call.1)
         (activeColumns ∖ res_predictedColumns call.1) pa.1,
   pc.2).
Proof.
  simpl. unfold compute, compute_call, mbind, St_bind, mret, St_ret, get_set, contents.
  simpl. by destruct (computeFn _ _ _ _ _ _ _ _ _ _ _ _).
Qed.

(** A set object that is live when [compute_call] returns keeps its
    contents while [compute] assigns the fields. *)
Lemma compute_keeps_live (self : GeneralTemporalMemory) (activeColumns : gset Z)
    (activeExternalCells : option (gset Z))
    (formInternalConnections learn : bool) (w : World) (r : ref) :
  let call := compute_call self activeColumns activeExternalCells
                           formInternalConnections learn w in
  let out := compute self activeColumns activeExternalCells
                     formInternalConnections learn w in
  r ∈ dom (cellsets call.2) -> contents out.2 r = contents call.2 r.
Proof.
  cbv zeta. intros Hlive. rewrite compute_unfold. cbv zeta. cbn [fst snd].
  repeat (rewrite new_set_live;
          [| repeat (rewrite new_set_dom; apply elem_of_union_r); exact Hlive]).
  reflexivity.
Qed.

(** What the fields of [self] name after [compute]. *)
Lemma compute_fields (self : GeneralTemporalMemory) (activeColumns : gset Z)
    (activeExternalCells : option (gset Z))
    (formInternalConnections learn : bool) (w : World) :
  let call := compute_call self activeColumns activeExternalCells
                           formInternalConnections learn w in
  let out := compute self activeColumns activeExternalCells
                     formInternalConnections learn w in
  contents out.2 (self_activeCells out.1) = res_activeCells call.1 /\
  contents out.2 (self_winnerCells out.1) = res_winnerCells call.1 /\
  contents out.2 (self_predictiveCells out.1) = res_predictiveCells call.1 /\
  contents out.2 (self_predictedActiveCells out.1) =
    contents call.2 (self_predictiveCells self) ∩ res_activeCells call.1 /\
  self_activeSegments out.1 = res_activeSegments call.1 /\
  self_unpredictedActiveColumns out.1 = activeColumns ∖ res_predictedColumns call.1 /\
  self_chosenCellForColumn out.1 = res_chosenCellForColumn call.1 /\
  self_activeExternalCells out.1 = fresh (dom (cellsets w)) /\
  self_learnOnOneCell out.1 = self_learnOnOneCell self /\
  dicts out.2 = dicts call.2 /\
  connections out.2 = connections call.2.
Proof.
  cbv zeta. rewrite compute_unfold. cbv zeta. cbn [fst snd].
  set (call := compute_call self activeColumns activeExternalCells
                            formInternalConnections learn w).
  set (pa := new_set _ call.2).
  set (ac := new_set _ pa.2).
  set (wc := new_set _ ac.2).
  set (pc := new_set _ wc.2).
  assert (pa.1 ∈ dom (cellsets pa.2)) as Hpa by apply new_set_live_ref.
  assert (ac.1 ∈ dom (cellsets ac.2)) as Hac by apply new_set_live_ref.
  assert (wc.1 ∈ dom (cellsets wc.2)) as Hwc by apply new_set_live_ref.
  assert (pa.1 ∈ dom (cellsets ac.2)) as Hpa' by apply new_set_keeps, Hpa.
  assert (pa.1 ∈ dom (cellsets wc.2)) as Hpa'' by apply new_set_keeps, Hpa'.
  assert (ac.1 ∈ dom (cellsets wc.2)) as Hac' by apply new_set_keeps, Hac.
  split; [| split; [| split; [| split]]]; [| | | | repeat split].
  - subst pc. rewrite (new_set_live _ _ _ Hac').
    subst wc. rewrite (new_set_live _ _ _ Hac).
    subst ac. apply new_set_contents.
  - subst pc. rewrite (new_set_live _ _ _ Hwc).
    subst wc. apply new_set_contents.
  - subst pc. apply new_set_contents.
  - subst pc. rewrite (new_set_live _ _ _ Hpa'').
    subst wc. rewrite (new_set_live _ _ _ Hpa').
    subst ac. rewrite (new_set_live _ _ _ Hpa).
    subst pa. apply new_set_contents.
Qed.

Lemma compute_call_unfold (self : GeneralTemporalMemory) (activeColumns : gset Z)
    (activeExternalCells : option (gset Z))
    (formInternalConnections learn : bool) (w : World) :
  let ext := new_set (reindexActiveExternalCells
                        (normalizeExternalCells activeExternalCells)) w in
  compute_call self activeColumns activeExternalCells formInternalConnections learn w =
  computeFn activeColumns ext.1 (self_activeExternalCells self)
    (self_predictiveCells self) (self_activeSegments self) (self_activeCells self)
    (self_winnerCells self) formInternalConnections (self_learnOnOneCell self)
    (self_chosenCellForColumn self) learn ext.2.
Proof. reflexivity. Qed.

(** Apart from the old external set, a live set object is as it was
    when [compute_call] returns. *)
Lemma compute_call_other (self : GeneralTemporalMemory) (activeColumns : gset Z)
    (activeExternalCells : option (gset Z))
    (formInternalConnections learn : bool) (w : World) (r : ref) :
  r ∈ dom (cellsets w) -> r ≠ self_activeExternalCells self ->
  contents (compute_call self activeColumns activeExternalCells
                         formInternalConnections learn w).2 r = contents w r.
Proof.
  intros Hlive Hne. rewrite compute_call_unfold. cbv zeta.
  rewrite computeFn_contents.
  rewrite (bool_decide_eq_false_2 _ Hne), andb_false_r.
  by apply new_set_live.
Qed.

(** The set object made from the reindexed input holds that input when
    [compute_call] returns. *)
Lemma compute_call_external (self : GeneralTemporalMemory) (activeColumns : gset Z)
    (activeExternalCells : option (gset Z))
    (formInternalConnections learn : bool) (w : World) :
  self_activeExternalCells self ∈ dom (cellsets w) ->
  contents (compute_call self activeColumns activeExternalCells
                         formInternalConnections learn w).2
           (fresh (dom (cellsets w))) =
  reindexActiveExternalCells (normalizeExternalCells activeExternalCells).
Proof.
  intros Hlive. rewrite compute_call_unfold. cbv zeta.
  rewrite computeFn_contents.
  rewrite bool_decide_eq_false_2, andb_false_r.
  - apply new_set_contents.
  - intros Heq. rewrite <- Heq in Hlive. exact (is_fresh _ Hlive).
Qed.

Lemma compute_call_dom (self : GeneralTemporalMemory) (activeColumns : gset Z)
    (activeExternalCells : option (gset Z))
    (formInternalConnections learn : bool) (w : World) :
  {[ fresh (dom (cellsets w)) ]} ∪ dom (cellsets w) ⊆
  dom (cellsets (compute_call self activeColumns activeExternalCells
                              formInternalConnections learn w).2).
Proof.
  rewrite compute_call_unfold. cbv zeta.
  etrans; [| apply computeFn_dom]. by rewrite new_set_dom.
Qed.

(** After [compute], the field [activeExternalCells] names a set that
    holds the reindexed input. *)
Lemma compute_external (self : GeneralTemporalMemory) (activeColumns : gset Z)
    (activeExternalCells : option (gset Z))
    (formInternalConnections learn : bool) (w : World) :
  self_activeExternalCells self ∈ dom (cellsets w) ->
  let out := compute self activeColumns activeExternalCells
                     formInternalConnections learn w in
  contents out.2 (self_activeExternalCells out.1) =
  reindexActiveExternalCells (normalizeExternalCells activeExternalCells).
Proof.
  intros Hlive out. subst out.
  destruct (compute_fields self activeColumns activeExternalCells
              formInternalConnections learn w)
    as (_ & _ & _ & _ & _ & _ & _ & -> & _).
  rewrite compute_keeps_live.
  - by apply compute_call_external.
  - apply compute_call_dom, elem_of_union_l, elem_of_singleton_2. reflexivity.
Qed.

Lemma normalizeExternalCells_Some (s : gset Z) :
  normalizeExternalCells (Some s) = s.
Proof. unfold normalizeExternalCells. by case_bool_decide. Qed.

(** What [layer_wf] says of the two fields that [compute] reads after
    its call of [computeFn]. *)
Lemma layer_wf_fields (w : World) (self : GeneralTemporalMemory) :
  layer_wf w self ->
  self_predictiveCells self ∈ dom (cellsets w) /\
  self_activeExternalCells self ∈ dom (cellsets w) /\
  self_predictiveCells self ≠ self_activeExternalCells self.
Proof.
  intros (Hnodup & Hlive & _). unfold layer_refs in *.
  split; [| split].
  - apply Hlive. rewrite !elem_of_cons. tauto.
  - apply Hlive. rewrite !elem_of_cons. tauto.
  - rewrite !NoDup_cons, !not_elem_of_cons in Hnodup. tauto.
Qed.

(** ** The fields of [self] stay well formed *)

Lemma init_wf (learnOnOneCell : bool) (w : World) :
  layer_wf (init learnOnOneCell w).2 (init learnOnOneCell w).1.
Proof.
  unfold init, mbind, St_bind, mret, St_ret, new_dict.
  set (a := new_set ∅ w).
  set (b := new_set ∅ a.2).
  set (c := new_set ∅ b.2).
  set (e := new_set ∅ c.2).
  set (wd := mkWorld (cellsets e.2) (<[fresh (dom (dicts e.2)) := ∅]> (dicts e.2))
                     (connections e.2)).
  set (p := new_set ∅ wd).
  change (layer_wf p.2 (mkGTM a.1 b.1 ∅ c.1 e.1 learnOnOneCell
                              (fresh (dom (dicts e.2))) ∅ p.1)).
  destruct (alloc_chain (dom (cellsets w)) (dom (cellsets a.2)) (dom (cellsets b.2))
              (dom (cellsets c.2)) (dom (cellsets e.2)) (dom (cellsets p.2))
              a.1 b.1 c.1 e.1 p.1
              (new_set_fresh ∅ w) (new_set_grows ∅ w)
              (new_set_fresh ∅ a.2) (new_set_grows ∅ a.2)
              (new_set_fresh ∅ b.2) (new_set_grows ∅ b.2)
              (new_set_fresh ∅ c.2) (new_set_grows ∅ c.2)
              (new_set_fresh ∅ wd) (new_set_grows ∅ wd))
    as (Hnodup & _ & Hlive).
  split; [exact Hnodup | split; [exact Hlive |]].
  simpl. rewrite dom_insert_L. apply elem_of_union_l, elem_of_singleton_2. reflexivity.
Qed.

Lemma compute_wf (self : GeneralTemporalMemory) (activeColumns : gset Z)
    (activeExternalCells : option (gset Z))
    (formInternalConnections learn : bool) (w : World) :
  layer_wf w self ->
  layer_wf (compute self activeColumns activeExternalCells
                    formInternalConnections learn w).2
           (compute self activeColumns activeExternalCells
                    formInternalConnections learn w).1.
Proof.
  intros (_ & _ & Hdict).
  rewrite compute_unfold. cbv zeta. cbn [fst snd].
  pose proof (compute_call_dom self activeColumns activeExternalCells
                formInternalConnections learn w) as Dcall.
  assert (self_chosenCellForColumn self ∈
          dom (dicts (compute_call self activeColumns activeExternalCells
                                   formInternalConnections learn w).2)) as Hd.
  { rewrite compute_call_unfold. cbv zeta.
    destruct (computeFn_burst activeColumns
                (new_set (reindexActiveExternalCells
                            (normalizeExternalCells activeExternalCells)) w).1
                (self_activeExternalCells self) (self_predictiveCells self)
                (self_activeSegments self) (self_activeCells self)
                (self_winnerCells self) formInternalConnections
                (self_learnOnOneCell self) (self_chosenCellForColumn self) learn
                (new_set (reindexActiveExternalCells
                            (normalizeExternalCells activeExternalCells)) w).2)
      as (_ & _ & _ & -> & _).
    rewrite burstColumns_unfold. cbn [fst snd].
    by apply burstColumns_loop_dict_live. }
  assert (res_chosenCellForColumn
            (compute_call self activeColumns activeExternalCells
                          formInternalConnections learn w).1
          = self_chosenCellForColumn self) as Hsame.
  { rewrite compute_call_unfold. cbv zeta. apply computeFn_burst. }
  set (call := compute_call self activeColumns activeExternalCells
                            formInternalConnections learn w) in *.
  set (pa := new_set _ call.2).
  set (ac := new_set _ pa.2).
  set (wc := new_set _ ac.2).
  set (pc := new_set _ wc.2).
  destruct (alloc_chain (dom (cellsets w)) (dom (cellsets call.2))
              (dom (cellsets pa.2)) (dom (cellsets ac.2)) (dom (cellsets wc.2))
              (dom (cellsets pc.2))
              (fresh (dom (cellsets w))) pa.1 ac.1 wc.1 pc.1
              (is_fresh (dom (cellsets w))) Dcall
              (new_set_fresh _ call.2) (new_set_grows _ call.2)
              (new_set_fresh _ pa.2) (new_set_grows _ pa.2)
              (new_set_fresh _ ac.2) (new_set_grows _ ac.2)
              (new_set_fresh _ wc.2) (new_set_grows _ wc.2))
    as (_ & Hnodup & Hlive).
  split; [exact Hnodup | split].
  - intros r Hr. apply Hlive. unfold layer_refs in Hr; simpl in Hr.
    rewrite !elem_of_cons in Hr. rewrite !elem_of_cons. tauto.
  - simpl. rewrite Hsame. exact Hd.
Qed.

Lemma reset_wf (self : GeneralTemporalMemory) (w : World) :
  layer_wf (reset self w).2 (reset self w).1.
Proof.
  set (a := new_set ∅ w). set (b := new_set ∅ a.2). set (c := new_set ∅ b.2).
  set (e := new_set ∅ c.2).
  set (wd := mkWorld (cellsets e.2) (<[fresh (dom (dicts e.2)) := ∅]> (dicts e.2))
                     (connections e.2)).
  set (p := new_set ∅ wd).
  assert (reset self w =
          (mkGTM a.1 b.1 ∅ c.1 e.1 (self_learnOnOneCell self)
                 (fresh (dom (dicts e.2))) ∅ p.1, p.2)) as -> by reflexivity.
  destruct (alloc_chain (dom (cellsets w)) (dom (cellsets a.2)) (dom (cellsets b.2))
              (dom (cellsets c.2)) (dom (cellsets e.2)) (dom (cellsets p.2))
              a.1 b.1 c.1 e.1 p.1
              (new_set_fresh ∅ w) (new_set_grows ∅ w)
              (new_set_fresh ∅ a.2) (new_set_grows ∅ a.2)
              (new_set_fresh ∅ b.2) (new_set_grows ∅ b.2)
              (new_set_fresh ∅ c.2) (new_set_grows ∅ c.2)
              (new_set_fresh ∅ wd) (new_set_grows ∅ wd))
    as (Hnodup & _ & Hlive).
  split; [exact Hnodup | split; [exact Hlive |]].
  simpl. rewrite dom_insert_L. apply elem_of_union_l, elem_of_singleton_2. reflexivity.
Qed.

End LayerFacts.

(** * The small base class keeps the contracts *)

Section ToyFacts.

Import Toy.

Lemma toy_lookup_sound : segment_lookup_sound toyTM.
Proof.
  intros g cells input threshold s. simpl. unfold toy_mostActiveSegmentForCells.
  generalize (threshold - 1). intros bound.
  assert (forall (init : option Segment * Z),
            (forall s, init.1 = Some s -> cell s ∈ cells) ->
            forall s,
              (foldl (fun best t =>
                        let n := activity input t in
                        if bool_decide (cell (ts_segment t) ∈ cells) && (best.2 <? n)
                        then (Some (ts_segment t), n) else best) init g).1 = Some s ->
              cell s ∈ cells) as Hfold.
  { induction g as [|t g IH]; intros init Hinit s'; simpl; [apply Hinit |].
    apply IH. intros s''. case_bool_decide as Hin; simpl; [| apply Hinit].
    destruct (init.2 <? activity input t); simpl; [| apply Hinit].
    by intros [= <-]. }
  apply Hfold. simpl. discriminate.
Qed.

Lemma toy_create_owner : createSegment_owner toyTM.
Proof. intros g c. reflexivity. Qed.

Lemma toy_least_member : leastUsedCell_member toyTM.
Proof.
  intros cells g Hne. simpl. unfold toy_leastUsedCell.
  destruct (elements cells) as [|c rest] eqn:Hel.
  { apply elements_empty_inv in Hel. by apply leibniz_equiv in Hel. }
  assert (forall (l : list Cell) (c0 : Cell),
            foldl (fun best c' =>
                     if (segmentCount g c' <? segmentCount g best)%nat then c' else best)
                  c0 l ∈ c0 :: l) as Hfold.
  { induction l as [|x l IH]; intros c0; simpl; [set_solver |].
    specialize (IH (if (segmentCount g x <? segmentCount g c0)%nat then x else c0)).
    destruct (segmentCount g x <? segmentCount g c0)%nat; set_solver. }
  apply elem_of_elements. rewrite Hel. apply Hfold.
Qed.

(** The scenario on the small base class.  Step 1: column 0 is fully
    active, cell 1 is its only winner and its chosen cell.  Step 2, with
    no reset: the winner of column 0 is cell 1 again. *)
Example scenario_step1 :
  contents step1.2 (self_activeCells step1.1)
    = {[ ConnectionsCell 0; ConnectionsCell 1 ]} /\
  contents step1.2 (self_winnerCells step1.1) = {[ ConnectionsCell 1 ]} /\
  dict_contents step1.2 (self_chosenCellForColumn step1.1)
    = {[ 0 := ConnectionsCell 1 ]}.
Proof. repeat split; vm_compute; reflexivity. Qed.

Example scenario_step2 :
  contents step2.2 (self_winnerCells step2.1) = {[ ConnectionsCell 1 ]} /\
  dict_contents step2.2 (self_chosenCellForColumn step2.1)
    = {[ 0 := ConnectionsCell 1 ]}.
Proof. repeat split; vm_compute; reflexivity. Qed.

(** The set object that was [self.activeExternalCells] after step 1 is
    empty then, and holds the winner of step 1 after step 2: [compute]
    hands it to [computeFn], which updates it in place. *)
Example compute_updates_old_external_set :
  contents step1.2 (self_activeExternalCells step1.1) = ∅ /\
  contents step2.2 (self_activeExternalCells step1.1) = {[ ConnectionsCell 1 ]}.
Proof. repeat split; vm_compute; reflexivity. Qed.

End ToyFacts.

(** * The claims *)

Section Claims.

(** C1. Pinning invariant.  With [learnOnOneCell] true, let the dict
    [chosenCellForColumn] map column [C] to [W] and let [C] be an active
    column that is not predicted.  Then in the iteration of [C] the
    candidate cells handed to the segment lookup and to [leastUsedCell]
    are exactly [{W}] and the segment selected belongs to [W]; [W] is
    among the winners [burstColumns] returns, and the dict it returns,
    the one it was given, still maps [C] to [W]. *)
Theorem pinning_invariant {TM : TemporalMemory} (w : World)
    (activeColumns predictedColumns : gset Z) (prevActiveCells : gset Cell)
    (chosenCellForColumn : ref) (C : Z) (W : Cell) :
  segment_lookup_sound TM -> createSegment_owner TM -> leastUsedCell_member TM ->
  dict_contents w chosenCellForColumn !! C = Some W ->
  C ∈ activeColumns ∖ predictedColumns ->
  (forall before after,
     elements (activeColumns ∖ predictedColumns) = before ++ C :: after ->
     let w1 := (burstColumns_loop prevActiveCells true chosenCellForColumn
                                  (∅, ∅, ∅) before w).2 in
     candidateCells true (dict_contents w1 chosenCellForColumn) C = {[ W ]} /\
     cell (bestSegmentFor {[ W ]} prevActiveCells w1).1 = W) /\
  W ∈ (burstColumns activeColumns predictedColumns prevActiveCells true
                    chosenCellForColumn w).1.1.1.2 /\
  (burstColumns activeColumns predictedColumns prevActiveCells true
                chosenCellForColumn w).1.2 = chosenCellForColumn /\
  dict_contents (burstColumns activeColumns predictedColumns prevActiveCells true
                              chosenCellForColumn w).2 chosenCellForColumn !! C = Some W.
Proof.
  intros Hlookup Hcreate Hleast Hentry Hburst.
  assert (forall columns acc,
            dict_contents (burstColumns_loop prevActiveCells true chosenCellForColumn
                                             acc columns w).2 chosenCellForColumn !! C
            = Some W) as Hkeep.
  { intros columns acc. by apply burstColumns_loop_pinned. }
  split; [| split; [| split]].
  - intros before after _ w1. split.
    + apply candidateCells_pinned, Hkeep.
    + pose proof (bestSegmentFor_owner {[W]} prevActiveCells w1
                    Hlookup Hcreate Hleast) as Hown.
      assert (({[W]} : gset Cell) ≠ ∅) as Hne by set_solver.
      apply Hown in Hne. set_solver.
  - unfold burstColumns, mbind, St_bind, mret, St_ret.
    destruct (burstColumns_loop _ _ _ _ _ w) as [acc w'] eqn:Hloop. simpl.
    apply elem_of_elements in Hburst.
    destruct (burstColumns_loop_entry prevActiveCells true chosenCellForColumn
                _ (∅, ∅, ∅) w C Hburst) as (winner & Hw & Hin).
    rewrite Hkeep in Hw. injection Hw as <-. by rewrite Hloop in Hin.
  - unfold burstColumns, mbind, St_bind, mret, St_ret.
    by destruct (burstColumns_loop _ _ _ _ _ w).
  - unfold burstColumns, mbind, St_bind, mret, St_ret.
    specialize (Hkeep (elements (activeColumns ∖ predictedColumns)) (∅, ∅, ∅)).
    by destruct (burstColumns_loop _ _ _ _ _ w).
Qed.

(** The scenario after its first step: column 0 is pinned to cell 1 and
    bursts again. *)
Lemma pinning_invariant_witness :
  dict_contents Toy.step1.2 (self_chosenCellForColumn Toy.step1.1) !! 0
    = Some (ConnectionsCell 1) /\
  0 ∈ ({[ 0 ]} : gset Z) ∖ ∅ /\
  ConnectionsCell 1 ∈
    (burstColumns {[ 0 ]} ∅ ∅ true (self_chosenCellForColumn Toy.step1.1)
                  Toy.step1.2).1.1.1.2 /\
  dict_contents
    (burstColumns {[ 0 ]} ∅ ∅ true (self_chosenCellForColumn Toy.step1.1)
                  Toy.step1.2).2
    (self_chosenCellForColumn Toy.step1.1) !! 0 = Some (ConnectionsCell 1).
Proof.
  assert (dict_contents Toy.step1.2 (self_chosenCellForColumn Toy.step1.1) !! 0
          = Some (ConnectionsCell 1)) as Hentry by (vm_compute; reflexivity).
  assert (0 ∈ ({[ 0 ]} : gset Z) ∖ ∅) as Hburst
    by (apply elem_of_difference; split;
        [apply elem_of_singleton; reflexivity | apply not_elem_of_empty]).
  destruct (@pinning_invariant Toy.toyTM Toy.step1.2 {[ 0 ]} ∅ ∅
              (self_chosenCellForColumn Toy.step1.1) 0 (ConnectionsCell 1)
              toy_lookup_sound toy_create_owner toy_least_member Hentry Hburst)
    as (_ & Hwinner & _ & Hdict).
  exact (conj Hentry (conj Hburst (conj Hwinner Hdict))).
Defined.



(** C3, as stated, fails.  In the direct call with [learn] false and
    [formInternalConnections] false, the dict that is passed in is empty
    before the call and maps column 0 to cell 1 after it; the dict that
    is returned is that same object. *)
Lemma computeFn_updates_given_dict :
  dict_contents Toy.callWorld 1%positive = ∅ /\
  res_chosenCellForColumn (Toy.directCall false false).1 = 1%positive /\
  dict_contents (Toy.directCall false false).2 1%positive
    = {[ 0 := ConnectionsCell 1 ]}.
Proof. repeat split; vm_compute; reflexivity. Qed.

(** C3, amended.  [computeFn] returns the dict it is given and updates
    it in place: after the call every active column that was not
    predicted has an entry, and the entry of any other column is as
    before.  No other dict changes, no set object other than
    [prevActiveExternalCells] changes, and no set object at all changes
    unless both [learn] and [formInternalConnections] hold. *)
Theorem computeFn_frame {TM : TemporalMemory} (activeColumns : gset Z)
    (activeExternalCells prevActiveExternalCells prevPredictiveCells : ref)
    (prevActiveSegments : gset Segment) (prevActiveCells prevWinnerCells : ref)
    (formInternalConnections learnOnOneCell : bool)
    (chosenCellForColumn : ref) (learn : bool) (w : World) :
  let out :=
    computeFn activeColumns activeExternalCells prevActiveExternalCells
      prevPredictiveCells prevActiveSegments prevActiveCells prevWinnerCells
      formInternalConnections learnOnOneCell chosenCellForColumn learn w in
  res_chosenCellForColumn out.1 = chosenCellForColumn /\
  (forall column, column ∈ activeColumns ∖ res_predictedColumns out.1 ->
     is_Some (dict_contents out.2 chosenCellForColumn !! column)) /\
  (forall column, column ∉ activeColumns ∖ res_predictedColumns out.1 ->
     dict_contents out.2 chosenCellForColumn !! column
       = dict_contents w chosenCellForColumn !! column) /\
  (forall d, d ≠ chosenCellForColumn -> dicts out.2 !! d = dicts w !! d) /\
  (forall r, r ≠ prevActiveExternalCells -> contents out.2 r = contents w r) /\
  (learn && formInternalConnections = false -> cellsets out.2 = cellsets w).
Proof.
  cbv zeta.
  destruct (computeFn_burst activeColumns activeExternalCells
              prevActiveExternalCells prevPredictiveCells prevActiveSegments
              prevActiveCells prevWinnerCells formInternalConnections
              learnOnOneCell chosenCellForColumn learn w)
    as (_ & Hpred & Hsame & Hdicts & _).
  cbv zeta in Hpred, Hdicts. rewrite burstColumns_unfold in Hdicts.
  cbn [fst snd] in Hdicts.
  unfold dict_contents. rewrite Hpred, Hdicts. fold (dict_contents w).
  split; [exact Hsame |]. split; [| split; [| split; [| split]]].
  - intros column Hin. apply elem_of_elements in Hin.
    destruct (burstColumns_loop_entry
                (contents w prevActiveCells ∪ contents w prevActiveExternalCells)
                learnOnOneCell chosenCellForColumn _ (∅, ∅, ∅) w column Hin)
      as (winner & Hw & _).
    unfold dict_contents in Hw. rewrite Hw. by eexists.
  - intros column Hnot.
    apply (burstColumns_loop_other
             (contents w prevActiveCells ∪ contents w prevActiveExternalCells)
             learnOnOneCell chosenCellForColumn).
    by rewrite elem_of_elements.
  - intros d Hd. by apply burstColumns_loop_frame.
  - intros r Hr. rewrite computeFn_contents.
    by rewrite (bool_decide_eq_false_2 _ Hr), andb_false_r.
  - intros Hoff. rewrite computeFn_unfold. cbv zeta. cbn [fst snd].
    destruct learn; simpl in Hoff; [| apply burstColumns_cellsets].
    subst formInternalConnections. rewrite learnPhase_unfold. cbv zeta.
    cbn [cellsets snd]. apply burstColumns_cellsets.
Qed.

(** The direct call: column 0 gets its entry, and the set of previous
    winners is as before. *)
Lemma computeFn_frame_witness :
  0 ∈ ({[ 0 ]} : gset Z) ∖ res_predictedColumns (Toy.directCall true true).1 /\
  is_Some (dict_contents (Toy.directCall true true).2 1%positive !! 0) /\
  5%positive ≠ 2%positive /\
  contents (Toy.directCall true true).2 5%positive = contents Toy.callWorld 5%positive.
Proof.
  assert (0 ∈ ({[ 0 ]} : gset Z) ∖ res_predictedColumns (Toy.directCall true true).1)
    as Hburst by (apply (bool_decide_unpack _); vm_compute; exact I).
  assert (5%positive ≠ 2%positive) as Hne by discriminate.
  destruct (@computeFn_frame Toy.toyTM {[ 0 ]} 1%positive 2%positive 3%positive
              {[ Toy.seg0 ]} 4%positive 5%positive true true 1%positive true
              Toy.callWorld)
    as (_ & Hentry & _ & _ & Hsets & _).
  exact (conj Hburst (conj (Hentry 0 Hburst) (conj Hne (Hsets 5%positive Hne)))).
Defined.

(** C4 fails on the code.  In the direct call the previous internal and
    external active cells are both empty and the previous winners are
    cell 1.  With [formInternalConnections] and [learn], the object
    [prevActiveExternalCells] holds cell 1 after the call, and the graph
    left is the one [learnOnSegments] makes when the pool of previous
    active cells holds cell 1: the synapse to cell 1 of the segment that
    was active goes from permanence 5 to 6.  With the union of internal
    and external cells, as without [formInternalConnections], it goes to 4. *)
Theorem learn_pool_at_direct_call :
  contents Toy.callWorld 4%positive ∪ contents Toy.callWorld 2%positive = ∅ /\
  contents Toy.callWorld 5%positive = {[ ConnectionsCell 1 ]} /\
  contents (Toy.directCall true true).2 2%positive = {[ ConnectionsCell 1 ]} /\
  connections (Toy.directCall true true).2 =
    [ Toy.mkToySegment Toy.seg0 [(ConnectionsCell 1, 6)];
      Toy.mkToySegment (mkSegment 1 (ConnectionsCell 1)) [(ConnectionsCell 1, 1)] ] /\
  connections (Toy.directCall false true).2 =
    [ Toy.mkToySegment Toy.seg0 [(ConnectionsCell 1, 4)];
      Toy.mkToySegment (mkSegment 1 (ConnectionsCell 1)) [] ].
Proof. repeat split; vm_compute; reflexivity. Qed.

(** C5.  Two runs of one [compute] step from the same layer, store and
    inputs that differ only in [formInternalConnections] leave the same
    winner cells and the same dict [chosenCellForColumn] with the same
    contents; so do two calls of [computeFn] that differ only in that
    flag. *)
Theorem winners_ignore_formInternalConnections {TM : TemporalMemory}
    (self : GeneralTemporalMemory) (activeColumns : gset Z)
    (activeExternalCells : option (gset Z)) (learn : bool) (w : World) :
  let on := compute self activeColumns activeExternalCells true learn w in
  let off := compute self activeColumns activeExternalCells false learn w in
  contents on.2 (self_winnerCells on.1) = contents off.2 (self_winnerCells off.1) /\
  self_chosenCellForColumn on.1 = self_chosenCellForColumn off.1 /\
  dict_contents on.2 (self_chosenCellForColumn on.1)
    = dict_contents off.2 (self_chosenCellForColumn off.1) /\
  (forall (external prevExternal prevPredictive : ref)
          (prevActiveSegments : gset Segment) (prevActive prevWinner : ref)
          (learnOnOneCell : bool) (chosen : ref) (w0 : World),
     let a := computeFn activeColumns external prevExternal prevPredictive
                prevActiveSegments prevActive prevWinner true learnOnOneCell
                chosen learn w0 in
     let b := computeFn activeColumns external prevExternal prevPredictive
                prevActiveSegments prevActive prevWinner false learnOnOneCell
                chosen learn w0 in
     res_winnerCells a.1 = res_winnerCells b.1 /\
     res_chosenCellForColumn a.1 = res_chosenCellForColumn b.1 /\
     dicts a.2 = dicts b.2).
Proof.
  assert (forall (external prevExternal prevPredictive : ref)
                 (prevActiveSegments : gset Segment) (prevActive prevWinner : ref)
                 (learnOnOneCell : bool) (chosen : ref) (w0 : World),
            let a := computeFn activeColumns external prevExternal prevPredictive
                       prevActiveSegments prevActive prevWinner true learnOnOneCell
                       chosen learn w0 in
            let b := computeFn activeColumns external prevExternal prevPredictive
                       prevActiveSegments prevActive prevWinner false learnOnOneCell
                       chosen learn w0 in
            res_winnerCells a.1 = res_winnerCells b.1 /\
            res_chosenCellForColumn a.1 = res_chosenCellForColumn b.1 /\
            dicts a.2 = dicts b.2) as Hfn.
  { intros external prevExternal prevPredictive prevActiveSegments prevActive
           prevWinner learnOnOneCell chosen w0. cbv zeta.
    destruct (computeFn_burst activeColumns external prevExternal prevPredictive
                prevActiveSegments prevActive prevWinner true learnOnOneCell
                chosen learn w0) as (-> & _ & -> & -> & _).
    destruct (computeFn_burst activeColumns external prevExternal prevPredictive
                prevActiveSegments prevActive prevWinner false learnOnOneCell
                chosen learn w0) as (-> & _ & -> & -> & _).
    done. }
  cbv zeta. split; [| split; [| split]]; [| | | exact Hfn].
  all: destruct (compute_fields self activeColumns activeExternalCells true learn w)
         as (_ & Hw1 & _ & _ & _ & _ & Hc1 & _ & _ & Hd1 & _);
       destruct (compute_fields self activeColumns activeExternalCells false learn w)
         as (_ & Hw2 & _ & _ & _ & _ & Hc2 & _ & _ & Hd2 & _);
       cbv zeta in *; rewrite !compute_call_unfold in *; cbv zeta in *;
       destruct (Hfn (new_set (reindexActiveExternalCells
                                 (normalizeExternalCells activeExternalCells)) w).1
                     (self_activeExternalCells self) (self_predictiveCells self)
                     (self_activeSegments self) (self_activeCells self)
                     (self_winnerCells self) (self_learnOnOneCell self)
                     (self_chosenCellForColumn self)
                     (new_set (reindexActiveExternalCells
                                 (normalizeExternalCells activeExternalCells)) w).2)
         as (Ew & Ec & Ed); cbv zeta in *.
  - by rewrite Hw1, Hw2.
  - by rewrite Hc1, Hc2.
  - unfold dict_contents. by rewrite Hc1, Hc2, Hd1, Hd2, Ec, Ed.
Qed.

(** C6.  After [compute], [unpredictedActiveColumns] is [activeColumns]
    minus the [predictedColumns] that [computeFn] returned for the step,
    and [predictedActiveCells] is the intersection of the predictive
    cells of the previous step with the new active cells.  When
    [predictedColumns] is a subset of [activeColumns], the two sets of
    columns partition [activeColumns]. *)
Theorem diagnostics_partition {TM : TemporalMemory}
    (self : GeneralTemporalMemory) (activeColumns : gset Z)
    (activeExternalCells : option (gset Z))
    (formInternalConnections learn : bool) (w : World) :
  layer_wf w self ->
  let predictedColumns :=
    res_predictedColumns
      (compute_call self activeColumns activeExternalCells
                    formInternalConnections learn w).1 in
  let out := compute self activeColumns activeExternalCells
                     formInternalConnections learn w in
  self_unpredictedActiveColumns out.1 = activeColumns ∖ predictedColumns /\
  contents out.2 (self_predictedActiveCells out.1) =
    contents w (self_predictiveCells self) ∩ contents out.2 (self_activeCells out.1) /\
  (predictedColumns ⊆ activeColumns ->
     self_unpredictedActiveColumns out.1 ∪ predictedColumns = activeColumns /\
     self_unpredictedActiveColumns out.1 ## predictedColumns).
Proof.
  intros Hwf. cbv zeta.
  destruct (layer_wf_fields w self Hwf) as (Hlive & _ & Hne).
  destruct (compute_fields self activeColumns activeExternalCells
              formInternalConnections learn w)
    as (Hac & _ & _ & Hpa & _ & Hun & _).
  cbv zeta in *. rewrite Hun, Hpa, Hac.
  rewrite (compute_call_other self activeColumns activeExternalCells
             formInternalConnections learn w _ Hlive Hne).
  split; [reflexivity | split; [reflexivity |]].
  intros Hsub. split.
  - apply set_eq. intros c. rewrite elem_of_union, elem_of_difference.
    destruct (decide (c ∈ res_predictedColumns
                        (compute_call self activeColumns activeExternalCells
                                      formInternalConnections learn w).1));
      naive_solver.
  - intros c Hc. apply elem_of_difference in Hc. tauto.
Qed.

(** The second step of the scenario. *)
Lemma diagnostics_partition_witness :
  layer_wf Toy.step1.2 Toy.step1.1 /\
  res_predictedColumns
    (compute_call Toy.step1.1 {[ 0 ]} None true true Toy.step1.2).1 ⊆ {[ 0 ]} /\
  self_unpredictedActiveColumns Toy.step2.1 =
    {[ 0 ]} ∖ res_predictedColumns
                (compute_call Toy.step1.1 {[ 0 ]} None true true Toy.step1.2).1 /\
  contents Toy.step2.2 (self_predictedActiveCells Toy.step2.1) =
    contents Toy.step1.2 (self_predictiveCells Toy.step1.1)
    ∩ contents Toy.step2.2 (self_activeCells Toy.step2.1) /\
  self_unpredictedActiveColumns Toy.step2.1
    ∪ res_predictedColumns
        (compute_call Toy.step1.1 {[ 0 ]} None true true Toy.step1.2).1 = {[ 0 ]}.
Proof.
  assert (layer_wf Toy.step1.2 Toy.step1.1) as Hwf
    by exact (compute_wf _ _ _ _ _ _ (init_wf true Toy.emptyWorld)).
  assert (res_predictedColumns
            (compute_call Toy.step1.1 {[ 0 ]} None true true Toy.step1.2).1
          ⊆ ({[ 0 ]} : gset Z)) as Hsub
    by (apply (bool_decide_unpack _); vm_compute; exact I).
  destruct (@diagnostics_partition Toy.toyTM Toy.step1.1 {[ 0 ]} None true true
              Toy.step1.2 Hwf) as (Hun & Hpa & Hpart).
  destruct (Hpart Hsub) as (Hcover & _).
  exact (conj Hwf (conj Hsub (conj Hun (conj Hpa Hcover)))).
Defined.

(** C7.  [reindexActiveExternalCells] maps each raw identifier [i] to
    the cell [i + numberOfCells]: its result holds exactly those cells.
    With [numberOfCells = 4] the raw identifier 5 becomes cell 9.  The
    transform keeps no state: two [compute] calls, made on any two layers
    in any two stores with the same raw set, store equal sets of
    external cells, the reindexed raw set. *)
Theorem reindex_shift_stateless :
  (forall (TM : TemporalMemory) (raw : gset Z) (c : Cell),
     c ∈ reindexActiveExternalCells raw <->
     exists i, i ∈ raw /\ c = ConnectionsCell (i + numberOfCells)) /\
  @reindexActiveExternalCells Toy.toyTM {[ 5 ]} = {[ ConnectionsCell 9 ]} /\
  (forall (TM : TemporalMemory) (raw : gset Z)
          (self1 self2 : GeneralTemporalMemory) (w1 w2 : World)
          (columns1 columns2 : gset Z) (form1 form2 learn1 learn2 : bool),
     layer_wf w1 self1 -> layer_wf w2 self2 ->
     let out1 := compute self1 columns1 (Some raw) form1 learn1 w1 in
     let out2 := compute self2 columns2 (Some raw) form2 learn2 w2 in
     contents out1.2 (self_activeExternalCells out1.1)
       = reindexActiveExternalCells raw /\
     contents out2.2 (self_activeExternalCells out2.1)
       = contents out1.2 (self_activeExternalCells out1.1)).
Proof.
  split; [| split].
  - intros TM raw c. unfold reindexActiveExternalCells.
    rewrite elem_of_map. unfold increaseIndexByNumberOfCells.
    split; intros (i & Hi1 & Hi2); exists i; done.
  - unfold reindexActiveExternalCells. rewrite set_map_singleton_L. reflexivity.
  - intros TM raw self1 self2 w1 w2 columns1 columns2 form1 form2 learn1 learn2
           Hwf1 Hwf2. cbv zeta.
    destruct (layer_wf_fields w1 self1 Hwf1) as (_ & Hlive1 & _).
    destruct (layer_wf_fields w2 self2 Hwf2) as (_ & Hlive2 & _).
    pose proof (compute_external self1 columns1 (Some raw) form1 learn1 w1 Hlive1)
      as H1.
    pose proof (compute_external self2 columns2 (Some raw) form2 learn2 w2 Hlive2)
      as H2.
    cbv zeta in H1, H2. rewrite normalizeExternalCells_Some in H1, H2.
    by rewrite H1, H2.
Qed.

(** The raw set {5} given to a new layer and to the layer after one step. *)
Lemma reindex_shift_stateless_witness :
  layer_wf Toy.fresh_layer.2 Toy.fresh_layer.1 /\
  layer_wf Toy.step1.2 Toy.step1.1 /\
  contents (compute Toy.fresh_layer.1 {[ 0 ]} (Some {[ 5 ]}) true true
                    Toy.fresh_layer.2).2
           (self_activeExternalCells
              (compute Toy.fresh_layer.1 {[ 0 ]} (Some {[ 5 ]}) true true
                       Toy.fresh_layer.2).1)
    = @reindexActiveExternalCells Toy.toyTM {[ 5 ]} /\
  contents (compute Toy.step1.1 {[ 1 ]} (Some {[ 5 ]}) false false Toy.step1.2).2
           (self_activeExternalCells
              (compute Toy.step1.1 {[ 1 ]} (Some {[ 5 ]}) false false
                       Toy.step1.2).1)
    = contents (compute Toy.fresh_layer.1 {[ 0 ]} (Some {[ 5 ]}) true true
                        Toy.fresh_layer.2).2
               (self_activeExternalCells
                  (compute Toy.fresh_layer.1 {[ 0 ]} (Some {[ 5 ]}) true true
                           Toy.fresh_layer.2).1).
Proof.
  assert (layer_wf Toy.fresh_layer.2 Toy.fresh_layer.1) as Hwf0
    by exact (init_wf true Toy.emptyWorld).
  assert (layer_wf Toy.step1.2 Toy.step1.1) as Hwf1
    by exact (compute_wf _ _ _ _ _ _ Hwf0).
  destruct reindex_shift_stateless as (_ & _ & Hsteps).
  destruct (Hsteps Toy.toyTM {[ 5 ]} Toy.fresh_layer.1 Toy.step1.1
                   Toy.fresh_layer.2 Toy.step1.2 {[ 0 ]} {[ 1 ]}
                   true false true false Hwf0 Hwf1) as (Hfirst & Hsecond).
  exact (conj Hwf0 (conj Hwf1 (conj Hfirst Hsecond))).
Defined.

(** C8.  After [reset], the set [activeExternalCells] is empty, the dict
    [chosenCellForColumn] is empty, so that the candidates of every
    column are all its cells again, and the diagnostic sets
    [unpredictedActiveColumns] and [predictedActiveCells] are empty.
    The three fields that hold objects name objects that exist in the
    store after the call, that the store holds as the empty set and the
    empty dict, and that [reset] has created: none of them existed
    before, and the two sets are two objects. *)
Theorem reset_clears_episode_state {TM : TemporalMemory}
    (self : GeneralTemporalMemory) (w : World) :
  let out := reset self w in
  contents out.2 (self_activeExternalCells out.1) = ∅ /\
  dict_contents out.2 (self_chosenCellForColumn out.1) = ∅ /\
  (forall learnOnOneCell column,
     candidateCells learnOnOneCell
       (dict_contents out.2 (self_chosenCellForColumn out.1)) column
     = cellsForColumn column) /\
  self_unpredictedActiveColumns out.1 = ∅ /\
  contents out.2 (self_predictedActiveCells out.1) = ∅ /\
  (self_activeExternalCells out.1 ∈ dom (cellsets out.2)) /\
  (self_chosenCellForColumn out.1 ∈ dom (dicts out.2)) /\
  (self_predictedActiveCells out.1 ∈ dom (cellsets out.2)) /\
  cellsets out.2 !! self_activeExternalCells out.1 = Some ∅ /\
  dicts out.2 !! self_chosenCellForColumn out.1 = Some ∅ /\
  cellsets out.2 !! self_predictedActiveCells out.1 = Some ∅ /\
  (self_activeExternalCells out.1 ∉ dom (cellsets w)) /\
  (self_chosenCellForColumn out.1 ∉ dom (dicts w)) /\
  (self_predictedActiveCells out.1 ∉ dom (cellsets w)) /\
  self_activeExternalCells out.1 ≠ self_predictedActiveCells out.1.
Proof.
  enough (let out := reset self w in
          (contents out.2 (self_activeExternalCells out.1) = ∅ /\
           dict_contents out.2 (self_chosenCellForColumn out.1) = ∅ /\
           (forall learnOnOneCell column,
              candidateCells learnOnOneCell
                (dict_contents out.2 (self_chosenCellForColumn out.1)) column
              = cellsForColumn column) /\
           self_unpredictedActiveColumns out.1 = ∅ /\
           contents out.2 (self_predictedActiveCells out.1) = ∅) /\
          (self_activeExternalCells out.1 ∈ dom (cellsets out.2)) /\
          (self_chosenCellForColumn out.1 ∈ dom (dicts out.2)) /\
          (self_predictedActiveCells out.1 ∈ dom (cellsets out.2)) /\
          (self_activeExternalCells out.1 ∉ dom (cellsets w)) /\
          (self_chosenCellForColumn out.1 ∉ dom (dicts w)) /\
          (self_predictedActiveCells out.1 ∉ dom (cellsets w)) /\
          self_activeExternalCells out.1 ≠ self_predictedActiveCells out.1)
    as Hall.
  { cbv zeta in Hall |- *.
    destruct Hall as ((Ha & Hd & Hc & Hu & Hp) & La & Ld & Lp & Fa & Fd & Fp & Hne).
    assert (forall (m : gmap positive (gset Cell)) r,
              r ∈ dom m -> m !!! r = ∅ -> m !! r = Some ∅) as Hset.
    { intros m r [x Hx]%elem_of_dom Hr.
      rewrite (lookup_total_correct _ _ _ Hx) in Hr. by rewrite Hx, Hr. }
    assert (forall (m : gmap positive (gmap Z Cell)) r,
              r ∈ dom m -> m !!! r = ∅ -> m !! r = Some ∅) as Hmap.
    { intros m r [x Hx]%elem_of_dom Hr.
      rewrite (lookup_total_correct _ _ _ Hx) in Hr. by rewrite Hx, Hr. }
    repeat split; try assumption.
    - exact (Hset _ _ La Ha).
    - exact (Hmap _ _ Ld Hd).
    - exact (Hset _ _ Lp Hp). }
  split; [| clear].
  2: {
    cbv zeta.
    set (a := new_set ∅ w). set (b := new_set ∅ a.2). set (c := new_set ∅ b.2).
    set (e := new_set ∅ c.2).
    set (wd := mkWorld (cellsets e.2) (<[fresh (dom (dicts e.2)) := ∅]> (dicts e.2))
                       (connections e.2)).
    set (p := new_set ∅ wd).
    assert (reset self w =
            (mkGTM a.1 b.1 ∅ c.1 e.1 (self_learnOnOneCell self)
                   (fresh (dom (dicts e.2))) ∅ p.1, p.2)) as -> by reflexivity.
    cbn [fst snd self_activeExternalCells self_chosenCellForColumn
         self_unpredictedActiveColumns self_predictedActiveCells].
    assert (e.1 ∈ dom (cellsets wd)) as Hlive by apply (new_set_live_ref ∅ c.2).
    assert (dom (cellsets w) ⊆ dom (cellsets c.2)) as Hwc.
    { intros r Hr. subst c b a. do 3 apply new_set_keeps. exact Hr. }
    assert (dom (cellsets w) ⊆ dom (cellsets wd)) as Hwd.
    { intros r Hr. subst wd e. cbn [cellsets]. apply new_set_keeps, Hwc, Hr. }
    split; [| split; [| split; [| split; [| split; [| split]]]]].
    - subst p. apply new_set_keeps, Hlive.
    - subst p wd. cbn [new_set snd dicts]. rewrite dom_insert_L.
      apply elem_of_union_l, elem_of_singleton_2. reflexivity.
    - subst p. apply new_set_live_ref.
    - intros Hin. exact (new_set_fresh ∅ c.2 (Hwc _ Hin)).
    - exact (is_fresh (dom (dicts w))).
    - intros Hin. exact (new_set_fresh ∅ wd (Hwd _ Hin)).
    - exact (fresh_ne _ _ _ (new_set_fresh ∅ wd) Hlive). }
  cbv zeta.
  set (a := new_set ∅ w). set (b := new_set ∅ a.2). set (c := new_set ∅ b.2).
  set (e := new_set ∅ c.2).
  set (wd := mkWorld (cellsets e.2) (<[fresh (dom (dicts e.2)) := ∅]> (dicts e.2))
                     (connections e.2)).
  set (p := new_set ∅ wd).
  assert (reset self w =
          (mkGTM a.1 b.1 ∅ c.1 e.1 (self_learnOnOneCell self)
                 (fresh (dom (dicts e.2))) ∅ p.1, p.2)) as -> by reflexivity.
  cbn [fst snd self_activeExternalCells self_chosenCellForColumn
       self_unpredictedActiveColumns self_predictedActiveCells].
  assert (dict_contents p.2 (fresh (dom (dicts e.2))) = ∅) as Hdict.
  { unfold dict_contents. subst p wd. cbn [new_set snd dicts].
    apply lookup_total_insert_eq. }
  split; [| split; [| split; [| split]]].
  - assert (e.1 ∈ dom (cellsets wd)) as Hlive by apply (new_set_live_ref ∅ c.2).
    subst p. rewrite (new_set_live _ _ _ Hlive).
    subst wd e. apply (new_set_contents ∅ c.2).
  - exact Hdict.
  - intros learnOnOneCell column. rewrite Hdict.
    apply candidateCells_unpinned, lookup_empty.
  - reflexivity.
  - subst p. apply new_set_contents.
Qed.

(** C9.  A [compute] call whose [activeExternalCells] is [None] or the
    empty set returns as any other call does: the argument is normalized
    to the empty set, whose reindexing is empty, the call is the call
    with [None], and after it the field [activeExternalCells] names an
    empty set. *)
Theorem empty_external_input_normalized {TM : TemporalMemory}
    (self : GeneralTemporalMemory) (activeColumns : gset Z)
    (activeExternalCells : option (gset Z))
    (formInternalConnections learn : bool) (w : World) :
  layer_wf w self ->
  activeExternalCells = None \/ activeExternalCells = Some ∅ ->
  let out := compute self activeColumns activeExternalCells
                     formInternalConnections learn w in
  normalizeExternalCells activeExternalCells = ∅ /\
  reindexActiveExternalCells (normalizeExternalCells activeExternalCells) = ∅ /\
  out = compute self activeColumns None formInternalConnections learn w /\
  contents out.2 (self_activeExternalCells out.1) = ∅.
Proof.
  intros Hwf Hempty. cbv zeta.
  destruct (layer_wf_fields w self Hwf) as (_ & Hlive & _).
  assert (normalizeExternalCells activeExternalCells = ∅) as Hnorm.
  { destruct Hempty as [-> | ->]; [reflexivity |].
    apply normalizeExternalCells_Some. }
  assert (reindexActiveExternalCells (normalizeExternalCells activeExternalCells)
          = ∅) as Hre.
  { rewrite Hnorm. unfold reindexActiveExternalCells. apply set_map_empty. }
  split; [exact Hnorm | split; [exact Hre | split]].
  - unfold compute. by rewrite Hnorm.
  - pose proof (compute_external self activeColumns activeExternalCells
                  formInternalConnections learn w Hlive) as Hext.
    cbv zeta in Hext. by rewrite Hext.
Qed.

(** The second step of the scenario, called with the empty set. *)
Lemma empty_external_input_normalized_witness :
  layer_wf Toy.step1.2 Toy.step1.1 /\
  normalizeExternalCells (Some ∅) = ∅ /\
  compute Toy.step1.1 {[ 0 ]} (Some ∅) true true Toy.step1.2 = Toy.step2 /\
  contents (compute Toy.step1.1 {[ 0 ]} (Some ∅) true true Toy.step1.2).2
           (self_activeExternalCells
              (compute Toy.step1.1 {[ 0 ]} (Some ∅) true true Toy.step1.2).1) = ∅.
Proof.
  assert (layer_wf Toy.step1.2 Toy.step1.1) as Hwf
    by exact (compute_wf _ _ _ _ _ _ (init_wf true Toy.emptyWorld)).
  destruct (@empty_external_input_normalized Toy.toyTM Toy.step1.1 {[ 0 ]}
              (Some ∅) true true Toy.step1.2 Hwf (or_intror eq_refl))
    as (Hnorm & _ & Hsame & Hext).
  exact (conj Hwf (conj Hnorm (conj Hsame Hext))).
Defined.



End Claims.

(** * Further properties of the layer *)

Section Reindexing.

Context {TM : TemporalMemory}.

Lemma increaseIndex_inj (n : Z) : Inj (=) (=) (increaseIndexByNumberOfCells n).
Proof. intros i j. unfold increaseIndexByNumberOfCells. intros [= Heq]. lia. Qed.

Lemma size_set_map_inj (f : Z -> Cell) (raw : gset Z) :
  Inj (=) (=) f -> size (set_map f raw : gset Cell) = size raw.
Proof.
  intros Hinj. induction raw as [|i raw Hi IH] using set_ind_L.
  - by rewrite set_map_empty, !size_empty.
  - rewrite set_map_union_L, set_map_singleton_L.
    rewrite !size_union, !size_singleton, IH; [done | |].
    + intros j Hj1 Hj2. apply elem_of_singleton in Hj1. subst j. done.
    + intros c Hc1 Hc2. apply elem_of_singleton in Hc1. subst c.
      apply elem_of_map in Hc2 as (j & Hj & Hin). apply Hinj in Hj. by subst j.
Qed.

(** X1. Round trip.  Subtracting [numberOfCells] from the index of each
    reindexed cell gives back the raw set; the reindexed set has as many
    cells as the raw set has identifiers; and the cell [i + numberOfCells]
    is in the reindexed set exactly when [i] is in the raw set. *)
Theorem reindex_round_trip (raw : gset Z) :
  set_map (fun c : Cell => idx c - numberOfCells)
          (reindexActiveExternalCells raw) = raw /\
  size (reindexActiveExternalCells raw) = size raw /\
  (forall i, ConnectionsCell (i + numberOfCells) ∈ reindexActiveExternalCells raw
             <-> i ∈ raw).
Proof.
  unfold reindexActiveExternalCells. split; [| split].
  - apply set_eq. intros i. rewrite elem_of_map. split.
    + intros (c & -> & Hc). apply elem_of_map in Hc as (j & -> & Hj).
      unfold increaseIndexByNumberOfCells. simpl.
      by replace (j + numberOfCells - numberOfCells) with j by lia.
    + intros Hi. exists (increaseIndexByNumberOfCells numberOfCells i). split.
      * unfold increaseIndexByNumberOfCells. simpl. lia.
      * by apply elem_of_map_2.
  - apply size_set_map_inj, increaseIndex_inj.
  - intros i. rewrite elem_of_map. split.
    + intros (j & Hj & Hin). apply (increaseIndex_inj numberOfCells) in Hj.
      by subst j.
    + intros Hi. by exists i.
Qed.

(** X2. The shift is the only separation: a raw identifier [i] with
    [-numberOfCells <= i < 0] is reindexed to a cell whose index is in
    the range of the internal cells. *)
Theorem reindex_negative_collides (raw : gset Z) (i : Z) :
  i ∈ raw -> - numberOfCells <= i < 0 ->
  exists c, c ∈ reindexActiveExternalCells raw /\
            c = ConnectionsCell (i + numberOfCells) /\
            0 <= idx c < numberOfCells.
Proof.
  intros Hi Hrange. exists (ConnectionsCell (i + numberOfCells)).
  split; [| split; [reflexivity | simpl; lia]].
  unfold reindexActiveExternalCells.
  by apply (elem_of_map_2 (increaseIndexByNumberOfCells numberOfCells)).
Qed.

End Reindexing.

(** The raw identifier -1 on the topology of four cells becomes cell 3. *)
Lemma reindex_negative_collides_witness :
  (-1) ∈ ({[ -1 ]} : gset Z) /\ - @numberOfCells Toy.toyTM <= -1 < 0 /\
  exists c, c ∈ @reindexActiveExternalCells Toy.toyTM {[ -1 ]} /\
            c = ConnectionsCell (-1 + @numberOfCells Toy.toyTM) /\
            0 <= idx c < @numberOfCells Toy.toyTM.
Proof.
  assert ((-1) ∈ ({[ -1 ]} : gset Z)) as Hin
    by (apply elem_of_singleton_2; reflexivity).
  assert (- @numberOfCells Toy.toyTM <= -1 < 0) as Hrange
    by (split; [discriminate | reflexivity]).
  exact (conj Hin (conj Hrange
           (@reindex_negative_collides Toy.toyTM {[ -1 ]} (-1) Hin Hrange))).
Defined.

Section Bursting.

Context {TM : TemporalMemory}.

Lemma burstColumns_loop_active (prev : gset Cell) (lo : bool) (d : ref)
    (columns : list Z) (acc : BurstAcc) (w : World) (x : Cell) :
  x ∈ (burstColumns_loop prev lo d acc columns w).1.1.1 <->
  x ∈ acc.1.1 \/ exists c, c ∈ columns /\ x ∈ cellsForColumn c.
Proof.
  revert acc w. induction columns as [|c columns IH]; intros acc w.
  { simpl. split; [by left |]. intros [Hx | (c & Hc & _)]; [done |].
    by apply elem_of_nil in Hc. }
  simpl. unfold mbind, St_bind.
  pose proof (burstColumn_unfold prev lo d acc c w) as Hstep; simpl in Hstep.
  rewrite Hstep, IH. simpl. rewrite elem_of_union. split.
  - intros [[Hx | Hx] | (c' & Hc' & Hx)].
    + by left.
    + right. exists c. split; [apply list_elem_of_here | done].
    + right. exists c'. split; [by apply list_elem_of_further | done].
  - intros [Hx | (c' & Hc' & Hx)]; [by left; left |].
    apply elem_of_cons in Hc' as [-> | Hc']; [by left; right |].
    right. by exists c'.
Qed.




Lemma candidateCells_in_column (lo : bool) (chosen : gmap Z Cell) (column : Z) :
  chosen_in_column chosen -> cellsForColumn column ≠ ∅ ->
  candidateCells lo chosen column ⊆ cellsForColumn column /\
  candidateCells lo chosen column ≠ ∅.
Proof.
  intros Hin Hne. unfold candidateCells.
  destruct lo; simpl; [| done].
  case_bool_decide as Hdom; [| done].
  apply elem_of_dom in Hdom as [W HW].
  rewrite (lookup_total_correct _ _ _ HW). split.
  - intros x Hx. apply elem_of_singleton in Hx. subst x. by apply (Hin column).
  - intros Hempty. assert (W ∈ (∅ : gset Cell)) as Habs
      by (rewrite <- Hempty; by apply elem_of_singleton_2).
    by apply not_elem_of_empty in Habs.
Qed.

Lemma burstColumns_loop_in_column (prev : gset Cell) (lo : bool) (d : ref)
    (columns : list Z) (acc : BurstAcc) (w : World) :
  segment_lookup_sound TM -> createSegment_owner TM -> leastUsedCell_member TM ->
  (forall c, c ∈ columns -> cellsForColumn c ≠ ∅) ->
  chosen_in_column (dict_contents w d) ->
  acc.1.2 ⊆ acc.1.1 ->
  chosen_in_column (dict_contents (burstColumns_loop prev lo d acc columns w).2 d) /\
  (burstColumns_loop prev lo d acc columns w).1.1.2
    ⊆ (burstColumns_loop prev lo d acc columns w).1.1.1.
Proof.
  intros Hlookup Hcreate Hleast.
  revert acc w. induction columns as [|c columns IH]; intros acc w Hcols Hin Hacc;
    [done |].
  simpl. unfold mbind, St_bind.
  pose proof (burstColumn_unfold prev lo d acc c w) as Hstep; simpl in Hstep.
  rewrite Hstep. clear Hstep.
  destruct (candidateCells_in_column lo (dict_contents w d) c Hin)
    as [Hsub Hne]; [apply Hcols, list_elem_of_here |].
  pose proof (bestSegmentFor_owner _ prev w Hlookup Hcreate Hleast Hne) as Hown.
  apply Hsub in Hown.
  apply IH.
  - intros c' Hc'. by apply Hcols, list_elem_of_further.
  - unfold dict_contents at 1; simpl. rewrite lookup_total_insert_eq.
    intros column W. destruct (decide (c = column)) as [<- | Hcol].
    + rewrite lookup_insert_eq. by intros [= <-].
    + rewrite lookup_insert_ne by done. apply Hin.
  - simpl. intros x Hx. apply elem_of_union in Hx as [Hx | Hx].
    + apply elem_of_union_l, Hacc, Hx.
    + apply elem_of_singleton in Hx. subst x. by apply elem_of_union_r.
Qed.

End Bursting.

Section BurstingProperties.

Context {TM : TemporalMemory}.

(** X3. [burstColumns] marks as active exactly the cells of the active
    columns that were not predicted: a cell is in the returned
    [activeCells] if and only if it is a cell of such a column. *)
Theorem burst_activates_whole_columns (activeColumns predictedColumns : gset Z)
    (prevActiveCells : gset Cell) (learnOnOneCell : bool)
    (chosenCellForColumn : ref) (w : World) (x : Cell) :
  x ∈ (burstColumns activeColumns predictedColumns prevActiveCells learnOnOneCell
                    chosenCellForColumn w).1.1.1.1 <->
  exists column, column ∈ activeColumns ∖ predictedColumns /\
                 x ∈ cellsForColumn column.
Proof.
  rewrite burstColumns_unfold. cbn [fst snd].
  rewrite burstColumns_loop_active. simpl. split.
  - intros [Hx | (c & Hc & Hx)]; [by apply not_elem_of_empty in Hx |].
    exists c. by rewrite <- elem_of_elements.
  - intros (c & Hc & Hx). right. exists c. by rewrite elem_of_elements.
Qed.


(** X5. Winners stay in their columns.  Let the graph operations keep
    their contracts, let every bursting column have a cell, and let
    every entry of the dict be a cell of its own column.  Then after
    [burstColumns] every entry of the dict is still a cell of its own
    column, and every winner returned is among the active cells returned. *)
Theorem winners_in_own_column (activeColumns predictedColumns : gset Z)
    (prevActiveCells : gset Cell) (learnOnOneCell : bool)
    (chosenCellForColumn : ref) (w : World) :
  segment_lookup_sound TM -> createSegment_owner TM -> leastUsedCell_member TM ->
  (forall column, column ∈ activeColumns ∖ predictedColumns ->
                  cellsForColumn column ≠ ∅) ->
  chosen_in_column (dict_contents w chosenCellForColumn) ->
  let out := burstColumns activeColumns predictedColumns prevActiveCells
                          learnOnOneCell chosenCellForColumn w in
  chosen_in_column (dict_contents out.2 chosenCellForColumn) /\
  out.1.1.1.2 ⊆ out.1.1.1.1.
Proof.
  intros Hlookup Hcreate Hleast Hcols Hin. cbv zeta.
  rewrite burstColumns_unfold. cbn [fst snd].
  apply burstColumns_loop_in_column; try done.
  intros c Hc. apply Hcols. by rewrite <- elem_of_elements.
Qed.

End BurstingProperties.

Lemma toy_columns_nonempty (column : Z) : @cellsForColumn Toy.toyTM column ≠ ∅.
Proof.
  simpl. intros Hempty.
  assert (ConnectionsCell (2 * column) ∈ (∅ : gset Cell)) as Habs.
  { rewrite <- Hempty. apply elem_of_union_l, elem_of_singleton_2. reflexivity. }
  by apply not_elem_of_empty in Habs.
Qed.

(** The scenario after its first step, where the dict maps column 0 to
    cell 1, a cell of column 0. *)
Lemma winners_in_own_column_witness :
  @chosen_in_column Toy.toyTM
    (dict_contents Toy.step1.2 (self_chosenCellForColumn Toy.step1.1)) /\
  @chosen_in_column Toy.toyTM
    (dict_contents
       (burstColumns {[ 0; 1 ]} ∅ ∅ true (self_chosenCellForColumn Toy.step1.1)
                     Toy.step1.2).2
       (self_chosenCellForColumn Toy.step1.1)) /\
  (burstColumns {[ 0; 1 ]} ∅ ∅ true (self_chosenCellForColumn Toy.step1.1)
                Toy.step1.2).1.1.1.2
  ⊆ (burstColumns {[ 0; 1 ]} ∅ ∅ true (self_chosenCellForColumn Toy.step1.1)
                  Toy.step1.2).1.1.1.1.
Proof.
  assert (@chosen_in_column Toy.toyTM
            (dict_contents Toy.step1.2 (self_chosenCellForColumn Toy.step1.1)))
    as Hin.
  { destruct scenario_step1 as (_ & _ & ->). intros column W HW.
    apply lookup_singleton_Some in HW as [<- <-].
    apply (bool_decide_unpack _). vm_compute. exact I. }
  exact (conj Hin
           (@winners_in_own_column Toy.toyTM {[ 0; 1 ]} ∅ ∅ true
              (self_chosenCellForColumn Toy.step1.1) Toy.step1.2
              toy_lookup_sound toy_create_owner toy_least_member
              (fun column _ => toy_columns_nonempty column) Hin)).
Defined.

Section StepProperties.

Context {TM : TemporalMemory}.

Lemma burstColumns_loop_dom (prev : gset Cell) (lo : bool) (d : ref)
    (columns : list Z) (acc : BurstAcc) (w : World) :
  dom (dict_contents (burstColumns_loop prev lo d acc columns w).2 d) =
  dom (dict_contents w d) ∪ list_to_set columns.
Proof.
  revert acc w. induction columns as [|c columns IH]; intros acc w.
  { simpl. by rewrite union_empty_r_L. }
  simpl. unfold mbind, St_bind.
  pose proof (burstColumn_unfold prev lo d acc c w) as Hstep; simpl in Hstep.
  rewrite Hstep, IH. unfold dict_contents at 1; simpl.
  rewrite lookup_total_insert_eq, dom_insert_L.
  by rewrite (assoc_L (∪)), (comm_L (∪) {[c]}).
Qed.

(** The dict after [compute], as the loop of [burstColumns] leaves it in
    the store that [compute] hands to [computeFn]. *)
Lemma compute_dict (self : GeneralTemporalMemory) (activeColumns : gset Z)
    (activeExternalCells : option (gset Z))
    (formInternalConnections learn : bool) (w : World) :
  let w0 := (new_set (reindexActiveExternalCells
                        (normalizeExternalCells activeExternalCells)) w).2 in
  let predicted :=
    activateCorrectlyPredictiveCells (contents w0 (self_predictiveCells self))
                                     activeColumns in
  let pool := contents w0 (self_activeCells self)
              ∪ contents w0 (self_activeExternalCells self) in
  let out := compute self activeColumns activeExternalCells
                     formInternalConnections learn w in
  self_chosenCellForColumn out.1 = self_chosenCellForColumn self /\
  self_unpredictedActiveColumns out.1 = activeColumns ∖ predicted.2 /\
  dicts out.2 =
    dicts (burstColumns_loop pool (self_learnOnOneCell self)
             (self_chosenCellForColumn self) (∅, ∅, ∅)
             (elements (activeColumns ∖ predicted.2)) w0).2.
Proof.
  cbv zeta.
  destruct (compute_fields self activeColumns activeExternalCells
              formInternalConnections learn w)
    as (_ & _ & _ & _ & _ & Hun & Hc & _ & _ & Hd & _).
  cbv zeta in Hun, Hc, Hd. rewrite Hun, Hc, Hd. clear Hun Hc Hd.
  rewrite compute_call_unfold. cbv zeta.
  destruct (computeFn_burst activeColumns
              (new_set (reindexActiveExternalCells
                          (normalizeExternalCells activeExternalCells)) w).1
              (self_activeExternalCells self) (self_predictiveCells self)
              (self_activeSegments self) (self_activeCells self)
              (self_winnerCells self) formInternalConnections
              (self_learnOnOneCell self) (self_chosenCellForColumn self) learn
              (new_set (reindexActiveExternalCells
                          (normalizeExternalCells activeExternalCells)) w).2)
    as (_ & -> & -> & -> & _).
  by rewrite burstColumns_unfold.
Qed.

(** X6. Inference on predicted input has no effect on the store.  When
    every active column is predicted and [learn] is false, [computeFn]
    ends in the store it started in: no set, no dict and not the graph
    is changed; the active and winner cells it returns are those of
    [activateCorrectlyPredictiveCells]. *)
Theorem inference_on_predicted_input (activeColumns : gset Z)
    (activeExternalCells prevActiveExternalCells prevPredictiveCells : ref)
    (prevActiveSegments : gset Segment) (prevActiveCells prevWinnerCells : ref)
    (formInternalConnections learnOnOneCell : bool)
    (chosenCellForColumn : ref) (w : World) :
  let predicted :=
    activateCorrectlyPredictiveCells (contents w prevPredictiveCells) activeColumns in
  activeColumns ⊆ predicted.2 ->
  let out :=
    computeFn activeColumns activeExternalCells prevActiveExternalCells
      prevPredictiveCells prevActiveSegments prevActiveCells prevWinnerCells
      formInternalConnections learnOnOneCell chosenCellForColumn false w in
  out.2 = w /\
  res_activeCells out.1 = predicted.1.1 /\
  res_winnerCells out.1 = predicted.1.2.
Proof.
  cbv zeta. intros Hsub.
  rewrite computeFn_unfold. cbv zeta. cbn [fst snd].
  rewrite burstColumns_unfold. cbn [fst snd].
  assert (activeColumns ∖
            (activateCorrectlyPredictiveCells (contents w prevPredictiveCells)
                                              activeColumns).2 = ∅) as ->.
  { apply set_eq. intros c. rewrite elem_of_difference. split.
    - intros [Hc Hnot]. destruct Hnot. by apply Hsub.
    - intros Hc. by apply not_elem_of_empty in Hc. }
  rewrite elements_empty. simpl.
  by rewrite !union_empty_r_L, !union_empty_l_L.
Qed.

(** X7. Learning without internal connections.  With [learn] true and
    [formInternalConnections] false, [learnOnSegments] receives the
    previous internal and external active cells as pool of previous
    active cells and the previous external cells alone as growth pool,
    on the graph that bursting left; no set object is changed. *)
Theorem learning_without_internal_connections (activeColumns : gset Z)
    (activeExternalCells prevActiveExternalCells prevPredictiveCells : ref)
    (prevActiveSegments : gset Segment) (prevActiveCells prevWinnerCells : ref)
    (learnOnOneCell : bool) (chosenCellForColumn : ref) (w : World) :
  let predicted :=
    activateCorrectlyPredictiveCells (contents w prevPredictiveCells) activeColumns in
  let burst :=
    burstColumns activeColumns predicted.2
      (contents w prevActiveCells ∪ contents w prevActiveExternalCells)
      learnOnOneCell chosenCellForColumn w in
  let out :=
    computeFn activeColumns activeExternalCells prevActiveExternalCells
      prevPredictiveCells prevActiveSegments prevActiveCells prevWinnerCells
      false learnOnOneCell chosenCellForColumn true w in
  connections out.2 =
    learnOnSegments prevActiveSegments burst.1.1.2
      (contents w prevActiveCells ∪ contents w prevActiveExternalCells)
      (res_winnerCells out.1) (contents w prevActiveExternalCells)
      (connections burst.2) /\
  cellsets out.2 = cellsets w.
Proof.
  cbv zeta. split.
  - rewrite computeFn_learn_pools. cbv zeta.
    destruct (computeFn_burst activeColumns activeExternalCells
                prevActiveExternalCells prevPredictiveCells prevActiveSegments
                prevActiveCells prevWinnerCells false learnOnOneCell
                chosenCellForColumn true w) as (-> & _).
    by rewrite !union_empty_r_L.
  - rewrite computeFn_unfold. cbv zeta. cbn [fst snd].
    rewrite learnPhase_unfold. cbv zeta. cbn [snd cellsets].
    apply burstColumns_cellsets.
Qed.

(** X8. The dict grows by the bursting columns.  After [compute] the
    columns that have an entry in [chosenCellForColumn] are those that
    had one before together with the unpredicted active columns of the
    step; [compute] removes no entry, and the dict is the same object. *)
Theorem chosen_columns_grow (self : GeneralTemporalMemory) (activeColumns : gset Z)
    (activeExternalCells : option (gset Z))
    (formInternalConnections learn : bool) (w : World) :
  let out := compute self activeColumns activeExternalCells
                     formInternalConnections learn w in
  self_chosenCellForColumn out.1 = self_chosenCellForColumn self /\
  dom (dict_contents out.2 (self_chosenCellForColumn out.1)) =
  dom (dict_contents w (self_chosenCellForColumn self))
  ∪ self_unpredictedActiveColumns out.1.
Proof.
  cbv zeta.
  destruct (compute_dict self activeColumns activeExternalCells
              formInternalConnections learn w) as (Hc & Hun & Hd).
  cbv zeta in Hc, Hun, Hd. split; [exact Hc |].
  unfold dict_contents at 1. rewrite Hc, Hun, Hd.
  fold (dict_contents
          (burstColumns_loop
             (contents (new_set (reindexActiveExternalCells
                                   (normalizeExternalCells activeExternalCells)) w).2
                       (self_activeCells self)
              ∪ contents (new_set (reindexActiveExternalCells
                                     (normalizeExternalCells activeExternalCells)) w).2
                         (self_activeExternalCells self))
             (self_learnOnOneCell self) (self_chosenCellForColumn self) (∅, ∅, ∅)
             (elements (activeColumns ∖
                (activateCorrectlyPredictiveCells
                   (contents (new_set (reindexActiveExternalCells
                                (normalizeExternalCells activeExternalCells)) w).2
                             (self_predictiveCells self)) activeColumns).2))
             (new_set (reindexActiveExternalCells
                         (normalizeExternalCells activeExternalCells)) w).2).2
          (self_chosenCellForColumn self)).
  rewrite burstColumns_loop_dom. by rewrite list_to_set_elements_L.
Qed.

(** X9. Pinning through [compute].  With [learnOnOneCell] true and the
    contracts of the graph operations, an entry of [chosenCellForColumn]
    is the same after [compute] as before, whether or not its column
    bursts in the step. *)
Theorem compute_keeps_chosen_cells (self : GeneralTemporalMemory)
    (activeColumns : gset Z) (activeExternalCells : option (gset Z))
    (formInternalConnections learn : bool) (w : World) (column : Z) (W : Cell) :
  segment_lookup_sound TM -> createSegment_owner TM -> leastUsedCell_member TM ->
  self_learnOnOneCell self = true ->
  dict_contents w (self_chosenCellForColumn self) !! column = Some W ->
  let out := compute self activeColumns activeExternalCells
                     formInternalConnections learn w in
  dict_contents out.2 (self_chosenCellForColumn out.1) !! column = Some W.
Proof.
  intros Hlookup Hcreate Hleast Hlo Hentry. cbv zeta.
  destruct (compute_dict self activeColumns activeExternalCells
              formInternalConnections learn w) as (Hc & _ & Hd).
  cbv zeta in Hc, Hd. unfold dict_contents at 1. rewrite Hc, Hd, Hlo.
  by apply (burstColumns_loop_pinned _ (self_chosenCellForColumn self)).
Qed.

End StepProperties.

(** Column 0 is predicted after step 2: the call leaves the store as it
    is and cell 1 is the winner. *)
Lemma inference_on_predicted_input_witness :
  ({[ 0 ]} : gset Z) ⊆
    (@activateCorrectlyPredictiveCells Toy.toyTM
       (contents Toy.step2.2 (self_predictiveCells Toy.step2.1)) {[ 0 ]}).2 /\
  Toy.inferenceCall.2 = Toy.step2.2 /\
  res_winnerCells Toy.inferenceCall.1 = {[ ConnectionsCell 1 ]}.
Proof.
  assert (({[ 0 ]} : gset Z) ⊆
            (@activateCorrectlyPredictiveCells Toy.toyTM
               (contents Toy.step2.2 (self_predictiveCells Toy.step2.1)) {[ 0 ]}).2)
    as Hsub by (apply (bool_decide_unpack _); vm_compute; exact I).
  destruct (@inference_on_predicted_input Toy.toyTM {[ 0 ]}
              (self_activeExternalCells Toy.step2.1)
              (self_activeExternalCells Toy.step2.1)
              (self_predictiveCells Toy.step2.1)
              (self_activeSegments Toy.step2.1) (self_activeCells Toy.step2.1)
              (self_winnerCells Toy.step2.1) true true
              (self_chosenCellForColumn Toy.step2.1) Toy.step2.2 Hsub)
    as (Hstore & _ & Hwinners).
  split; [exact Hsub | split; [exact Hstore |]].
  etrans; [exact Hwinners |]. vm_compute. reflexivity.
Defined.

(** The scenario: the entry of column 0 made in step 1 is there after
    step 2. *)
Lemma compute_keeps_chosen_cells_witness :
  self_learnOnOneCell Toy.step1.1 = true /\
  dict_contents Toy.step1.2 (self_chosenCellForColumn Toy.step1.1) !! 0
    = Some (ConnectionsCell 1) /\
  dict_contents Toy.step2.2 (self_chosenCellForColumn Toy.step2.1) !! 0
    = Some (ConnectionsCell 1).
Proof.
  assert (self_learnOnOneCell Toy.step1.1 = true) as Hlo by reflexivity.
  assert (dict_contents Toy.step1.2 (self_chosenCellForColumn Toy.step1.1) !! 0
          = Some (ConnectionsCell 1)) as Hentry by (vm_compute; reflexivity).
  exact (conj Hlo (conj Hentry
           (@compute_keeps_chosen_cells Toy.toyTM Toy.step1.1 {[ 0 ]} None true true
              Toy.step1.2 0 (ConnectionsCell 1)
              toy_lookup_sound toy_create_owner toy_least_member Hlo Hentry))).
Defined.

(** * The sets that a step returns *)

Section Contents.

Context {TM : TemporalMemory}.

(** The sets that [computeFn] returns. *)
Lemma computeFn_result (activeColumns : gset Z)
    (activeExternalCells prevActiveExternalCells prevPredictiveCells : ref)
    (prevActiveSegments : gset Segment) (prevActiveCells prevWinnerCells : ref)
    (formInternalConnections learnOnOneCell : bool)
    (chosenCellForColumn : ref) (learn : bool) (w : World) :
  let predicted :=
    activateCorrectlyPredictiveCells (contents w prevPredictiveCells) activeColumns in
  let burst :=
    burstColumns activeColumns predicted.2
      (contents w prevActiveCells ∪ contents w prevActiveExternalCells)
      learnOnOneCell chosenCellForColumn w in
  let out :=
    computeFn activeColumns activeExternalCells prevActiveExternalCells
      prevPredictiveCells prevActiveSegments prevActiveCells prevWinnerCells
      formInternalConnections learnOnOneCell chosenCellForColumn learn w in
  let next :=
    computePredictiveCells
      (res_activeCells out.1 ∪ contents out.2 activeExternalCells)
      (connections out.2) in
  res_activeCells out.1 = ∅ ∪ predicted.1.1 ∪ burst.1.1.1.1 /\
  res_activeSegments out.1 = next.1 /\
  res_predictiveCells out.1 = next.2.
Proof. cbv zeta. by rewrite computeFn_unfold. Qed.

End Contents.

Section LayerProperties.

Context {TM : TemporalMemory}.

Lemma not_elem_of_smaller (D D' : gset positive) (r : positive) :
  r ∉ D' -> D ⊆ D' -> r ∉ D.
Proof. intros Hr Hsub Hin. apply Hr, Hsub, Hin. Qed.

(** X12. [compute] binds the five set fields of [self] to objects that
    did not exist before the call, and every set object that existed
    before, other than the one [self.activeExternalCells] named, has the
    contents it had. *)
Theorem compute_rebinds_fields (self : GeneralTemporalMemory)
    (activeColumns : gset Z) (activeExternalCells : option (gset Z))
    (formInternalConnections learn : bool) (w : World) :
  let out := compute self activeColumns activeExternalCells
                     formInternalConnections learn w in
  (forall r, r ∈ dom (cellsets w) -> r ≠ self_activeExternalCells self ->
             contents out.2 r = contents w r) /\
  (forall r, r ∈ layer_refs out.1 -> r ∉ dom (cellsets w)).
Proof.
  cbv zeta.
  pose proof (compute_call_dom self activeColumns activeExternalCells
                formInternalConnections learn w) as Dcall.
  apply alloc_step in Dcall as [_ Dcall].
  split.
  - intros r Hlive Hne. rewrite compute_keeps_live by (by apply Dcall).
    by apply compute_call_other.
  - rewrite compute_unfold. cbv zeta. cbn [fst snd].
    set (call := compute_call self activeColumns activeExternalCells
                              formInternalConnections learn w) in *.
    set (pa := new_set _ call.2).
    set (ac := new_set _ pa.2).
    set (wc := new_set _ ac.2).
    set (pc := new_set _ wc.2).
    assert (dom (cellsets w) ⊆ dom (cellsets pa.2)) as D1.
    { etrans; [exact Dcall |]. apply (alloc_step _ _ pa.1), new_set_grows. }
    assert (dom (cellsets w) ⊆ dom (cellsets ac.2)) as D2.
    { etrans; [exact D1 |]. apply (alloc_step _ _ ac.1), new_set_grows. }
    assert (dom (cellsets w) ⊆ dom (cellsets wc.2)) as D3.
    { etrans; [exact D2 |]. apply (alloc_step _ _ wc.1), new_set_grows. }
    intros r Hr. unfold layer_refs in Hr. simpl in Hr.
    rewrite !elem_of_cons in Hr.
    destruct Hr as [-> | [-> | [-> | [-> | [-> | Hr]]]]].
    + exact (not_elem_of_smaller _ _ _
               (new_set_fresh (res_activeCells call.1) pa.2) D1).
    + exact (not_elem_of_smaller _ _ _
               (new_set_fresh (res_winnerCells call.1) ac.2) D2).
    + exact (not_elem_of_smaller _ _ _
               (new_set_fresh (res_predictiveCells call.1) wc.2) D3).
    + apply is_fresh.
    + exact (not_elem_of_smaller _ _ _
               (new_set_fresh (contents call.2 (self_predictiveCells self)
                               ∩ res_activeCells call.1) call.2) Dcall).
    + by apply elem_of_nil in Hr.
Qed.

(** X13. The fields of the layer never share an object.  [__init__] and
    [reset] leave, and [compute] keeps, a layer whose five set fields
    name five different live set objects and whose dict field names a
    live dict. *)
Theorem layer_fields_stay_apart :
  (forall learnOnOneCell w,
     layer_wf (init learnOnOneCell w).2 (init learnOnOneCell w).1) /\
  (forall self w, layer_wf (reset self w).2 (reset self w).1) /\
  (forall self activeColumns activeExternalCells formInternalConnections learn w,
     layer_wf w self ->
     layer_wf (compute self activeColumns activeExternalCells
                       formInternalConnections learn w).2
              (compute self activeColumns activeExternalCells
                       formInternalConnections learn w).1).
Proof.
  split; [exact init_wf | split; [exact reset_wf |]].
  intros self activeColumns activeExternalCells formInternalConnections learn w.
  apply compute_wf.
Qed.

(** X14. [reset] keeps what was learned and clears nothing in place: the
    graph and [learnOnOneCell] are as before, and every set object and
    every dict that existed before has the contents it had; the fields
    are bound to new objects. *)
Theorem reset_keeps_graph_and_objects (self : GeneralTemporalMemory) (w : World) :
  let out := reset self w in
  connections out.2 = connections w /\
  self_learnOnOneCell out.1 = self_learnOnOneCell self /\
  (forall d, d ∈ dom (dicts w) -> dict_contents out.2 d = dict_contents w d) /\
  (forall r, r ∈ dom (cellsets w) -> contents out.2 r = contents w r) /\
  (self_chosenCellForColumn out.1 ∉ dom (dicts w)) /\
  (forall r, r ∈ layer_refs out.1 -> r ∉ dom (cellsets w)).
Proof.
  cbv zeta.
  set (a := new_set ∅ w). set (b := new_set ∅ a.2). set (c := new_set ∅ b.2).
  set (e := new_set ∅ c.2).
  set (wd := mkWorld (cellsets e.2) (<[fresh (dom (dicts e.2)) := ∅]> (dicts e.2))
                     (connections e.2)).
  set (p := new_set ∅ wd).
  assert (reset self w =
          (mkGTM a.1 b.1 ∅ c.1 e.1 (self_learnOnOneCell self)
                 (fresh (dom (dicts e.2))) ∅ p.1, p.2)) as -> by reflexivity.
  cbn [fst snd self_learnOnOneCell self_chosenCellForColumn].
  assert (dom (cellsets w) ⊆ dom (cellsets a.2)) as D1
    by apply (alloc_step _ _ a.1), new_set_grows.
  assert (dom (cellsets w) ⊆ dom (cellsets b.2)) as D2
    by (etrans; [exact D1 |]; apply (alloc_step _ _ b.1), new_set_grows).
  assert (dom (cellsets w) ⊆ dom (cellsets c.2)) as D3
    by (etrans; [exact D2 |]; apply (alloc_step _ _ c.1), new_set_grows).
  assert (dom (cellsets w) ⊆ dom (cellsets wd)) as D4
    by (etrans; [exact D3 |]; apply (alloc_step _ _ e.1), (new_set_grows ∅ c.2)).
  split; [reflexivity | split; [reflexivity |]].
  split; [| split; [| split]].
  - intros d Hd. unfold dict_contents. subst p wd. cbn [new_set snd dicts].
    rewrite lookup_total_insert_ne; [reflexivity |].
    apply not_eq_sym, (fresh_ne (dom (dicts w))); [apply is_fresh | exact Hd].
  - intros r Hr. subst p. rewrite new_set_live by (by apply D4).
    change (contents wd r) with (contents e.2 r).
    subst e. rewrite new_set_live by (by apply D3).
    subst c. rewrite new_set_live by (by apply D2).
    subst b. rewrite new_set_live by (by apply D1).
    subst a. by rewrite new_set_live.
  - apply is_fresh.
  - intros r Hr. unfold layer_refs in Hr. simpl in Hr.
    rewrite !elem_of_cons in Hr.
    destruct Hr as [-> | [-> | [-> | [-> | [-> | Hr]]]]].
    + exact (new_set_fresh ∅ w).
    + exact (not_elem_of_smaller _ _ _ (new_set_fresh ∅ a.2) D1).
    + exact (not_elem_of_smaller _ _ _ (new_set_fresh ∅ b.2) D2).
    + exact (not_elem_of_smaller _ _ _ (new_set_fresh ∅ c.2) D3).
    + exact (not_elem_of_smaller _ _ _ (new_set_fresh ∅ wd) D4).
    + by apply elem_of_nil in Hr.
Qed.

End LayerProperties.

Section WinnerProperties.

Context {TM : TemporalMemory}.

(** X15. Winners are active.  Let the graph operations keep their
    contracts, let the winners that [activateCorrectlyPredictiveCells]
    returns be among the active cells it returns, let every active
    column have a cell, and let every entry of [chosenCellForColumn] be
    a cell of its own column.  Then after [compute] the winner cells are
    a subset of the active cells, and every entry of the dict is still a
    cell of its own column. *)
Theorem winner_cells_are_active (self : GeneralTemporalMemory)
    (activeColumns : gset Z) (activeExternalCells : option (gset Z))
    (formInternalConnections learn : bool) (w : World) :
  segment_lookup_sound TM -> createSegment_owner TM -> leastUsedCell_member TM ->
  (forall predictive columns,
     (activateCorrectlyPredictiveCells predictive columns).1.2
     ⊆ (activateCorrectlyPredictiveCells predictive columns).1.1) ->
  (forall column, column ∈ activeColumns -> cellsForColumn column ≠ ∅) ->
  chosen_in_column (dict_contents w (self_chosenCellForColumn self)) ->
  let out := compute self activeColumns activeExternalCells
                     formInternalConnections learn w in
  contents out.2 (self_winnerCells out.1) ⊆ contents out.2 (self_activeCells out.1) /\
  chosen_in_column (dict_contents out.2 (self_chosenCellForColumn out.1)).
Proof.
  intros Hlookup Hcreate Hleast Hbase Hcols Hin. cbv zeta.
  pose proof (compute_call_unfold self activeColumns activeExternalCells
                formInternalConnections learn w) as Hcall.
  pose proof (compute_dict self activeColumns activeExternalCells
                formInternalConnections learn w) as Hdicts.
  cbv zeta in Hcall, Hdicts.
  set (ext := new_set (reindexActiveExternalCells
                         (normalizeExternalCells activeExternalCells)) w) in *.
  destruct (burstColumns_loop_in_column
              (contents ext.2 (self_activeCells self)
               ∪ contents ext.2 (self_activeExternalCells self))
              (self_learnOnOneCell self) (self_chosenCellForColumn self)
              (elements (activeColumns ∖
                 (activateCorrectlyPredictiveCells
                    (contents ext.2 (self_predictiveCells self)) activeColumns).2))
              (∅, ∅, ∅) ext.2 Hlookup Hcreate Hleast)
    as (Hdict & Hsub); [| exact Hin | done |].
  { intros c Hc. apply elem_of_elements, elem_of_difference in Hc as [Hc _].
    by apply Hcols. }
  split.
  - destruct (compute_fields self activeColumns activeExternalCells
                formInternalConnections learn w) as (-> & -> & _).
    rewrite Hcall.
    destruct (computeFn_result activeColumns ext.1
                (self_activeExternalCells self) (self_predictiveCells self)
                (self_activeSegments self) (self_activeCells self)
                (self_winnerCells self) formInternalConnections
                (self_learnOnOneCell self) (self_chosenCellForColumn self) learn
                ext.2) as (-> & _).
    destruct (computeFn_burst activeColumns ext.1
                (self_activeExternalCells self) (self_predictiveCells self)
                (self_activeSegments self) (self_activeCells self)
                (self_winnerCells self) formInternalConnections
                (self_learnOnOneCell self) (self_chosenCellForColumn self) learn
                ext.2) as (-> & _).
    rewrite burstColumns_unfold. cbn [fst snd].
    intros x Hx. rewrite !elem_of_union in Hx. rewrite !elem_of_union.
    destruct Hx as [[Hx | Hx] | Hx].
    + by apply not_elem_of_empty in Hx.
    + left; right. by apply Hbase.
    + right. by apply Hsub.
  - destruct Hdicts as (Hc & _ & Hd).
    unfold dict_contents at 1. rewrite Hc, Hd. exact Hdict.
Qed.

(** X16. When the previous winner cells are among the previous internal
    and external active cells, [learnOnSegments] receives exactly the
    union of those internal and external cells as pool of previous
    active cells, for both values of [formInternalConnections]; the
    previous winners enter the growth pool only with the flag. *)
Theorem learn_pool_when_winners_active (activeColumns : gset Z)
    (activeExternalCells prevActiveExternalCells prevPredictiveCells : ref)
    (prevActiveSegments : gset Segment) (prevActiveCells prevWinnerCells : ref)
    (formInternalConnections learnOnOneCell : bool)
    (chosenCellForColumn : ref) (w : World) :
  contents w prevWinnerCells
    ⊆ contents w prevActiveCells ∪ contents w prevActiveExternalCells ->
  let predicted :=
    activateCorrectlyPredictiveCells (contents w prevPredictiveCells) activeColumns in
  let burst :=
    burstColumns activeColumns predicted.2
      (contents w prevActiveCells ∪ contents w prevActiveExternalCells)
      learnOnOneCell chosenCellForColumn w in
  let out :=
    computeFn activeColumns activeExternalCells prevActiveExternalCells
      prevPredictiveCells prevActiveSegments prevActiveCells prevWinnerCells
      formInternalConnections learnOnOneCell chosenCellForColumn true w in
  connections out.2 =
    learnOnSegments prevActiveSegments burst.1.1.2
      (contents w prevActiveCells ∪ contents w prevActiveExternalCells)
      (res_winnerCells out.1)
      (contents w prevActiveExternalCells
       ∪ (if formInternalConnections then contents w prevWinnerCells else ∅))
      (connections burst.2).
Proof.
  intros Hsub. cbv zeta. rewrite computeFn_learn_pools. cbv zeta.
  destruct (computeFn_burst activeColumns activeExternalCells
              prevActiveExternalCells prevPredictiveCells prevActiveSegments
              prevActiveCells prevWinnerCells formInternalConnections
              learnOnOneCell chosenCellForColumn true w) as (-> & _).
  f_equal. destruct formInternalConnections.
  - apply set_eq. intros x. rewrite !elem_of_union. split; [| tauto].
    intros [Hx | Hx]; [done |]. apply Hsub in Hx. by apply elem_of_union in Hx.
  - by rewrite union_empty_r_L.
Qed.

End WinnerProperties.

Lemma toy_activate_winners_active (predictive : gset Cell) (columns : gset Z) :
  (@activateCorrectlyPredictiveCells Toy.toyTM predictive columns).1.2
  ⊆ (@activateCorrectlyPredictiveCells Toy.toyTM predictive columns).1.1.
Proof. reflexivity. Qed.

Lemma toy_step1_chosen_in_column :
  @chosen_in_column Toy.toyTM
    (dict_contents Toy.step1.2 (self_chosenCellForColumn Toy.step1.1)).
Proof.
  destruct scenario_step1 as (_ & _ & ->). intros column W HW.
  apply lookup_singleton_Some in HW as [<- <-].
  apply (bool_decide_unpack _). vm_compute. exact I.
Qed.

(** The second step of the scenario: the set of winners of step 1 is as
    it was, and the field [winnerCells] names a new object. *)
Lemma compute_rebinds_fields_witness :
  self_winnerCells Toy.step1.1 ∈ dom (cellsets Toy.step1.2) /\
  self_winnerCells Toy.step1.1 ≠ self_activeExternalCells Toy.step1.1 /\
  contents Toy.step2.2 (self_winnerCells Toy.step1.1)
    = contents Toy.step1.2 (self_winnerCells Toy.step1.1) /\
  self_winnerCells Toy.step2.1 ∈ layer_refs Toy.step2.1 /\
  (self_winnerCells Toy.step2.1 ∉ dom (cellsets Toy.step1.2)).
Proof.
  unfold Toy.step2.
  assert (self_winnerCells Toy.step1.1 ∈ dom (cellsets Toy.step1.2)) as Hlive
    by (apply (bool_decide_unpack _); vm_compute; exact I).
  assert (self_winnerCells Toy.step1.1 ≠ self_activeExternalCells Toy.step1.1)
    as Hne by (vm_compute; discriminate).
  destruct (@compute_rebinds_fields Toy.toyTM Toy.step1.1 {[ 0 ]} None true true
              Toy.step1.2) as (Hold & Hnew).
  split; [exact Hlive | split; [exact Hne | split; [exact (Hold _ Hlive Hne) |]]].
  assert (self_winnerCells
            (compute Toy.step1.1 {[ 0 ]} None true true Toy.step1.2).1
          ∈ layer_refs
              (compute Toy.step1.1 {[ 0 ]} None true true Toy.step1.2).1) as Hfield
    by (unfold layer_refs; apply list_elem_of_further, list_elem_of_here).
  split; [exact Hfield | exact (Hnew _ Hfield)].
Defined.

(** The layer of the scenario after two steps. *)
Lemma layer_fields_stay_apart_witness :
  layer_wf Toy.fresh_layer.2 Toy.fresh_layer.1 /\
  layer_wf Toy.step1.2 Toy.step1.1 /\
  layer_wf Toy.step2.2 Toy.step2.1 /\
  layer_wf Toy.afterReset.2 Toy.afterReset.1.
Proof.
  destruct (@layer_fields_stay_apart Toy.toyTM) as (Hinit & Hreset & Hcompute).
  pose proof (Hinit true Toy.emptyWorld) as H0.
  pose proof (Hcompute _ {[ 0 ]} None true true _ H0) as H1.
  pose proof (Hcompute _ {[ 0 ]} None true true _ H1) as H2.
  exact (conj H0 (conj H1 (conj H2 (Hreset Toy.step2.1 Toy.step2.2)))).
Defined.

(** The scenario after [reset]: the graph of two segments and the old
    dict with its entry for column 0 are as before. *)
Lemma reset_keeps_graph_and_objects_witness :
  self_chosenCellForColumn Toy.step2.1 ∈ dom (dicts Toy.step2.2) /\
  connections Toy.afterReset.2 = connections Toy.step2.2 /\
  dict_contents Toy.afterReset.2 (self_chosenCellForColumn Toy.step2.1)
    = dict_contents Toy.step2.2 (self_chosenCellForColumn Toy.step2.1).
Proof.
  assert (self_chosenCellForColumn Toy.step2.1 ∈ dom (dicts Toy.step2.2)) as Hlive
    by (apply (bool_decide_unpack _); vm_compute; exact I).
  destruct (@reset_keeps_graph_and_objects Toy.toyTM Toy.step2.1 Toy.step2.2)
    as (Hgraph & _ & Hdicts & _).
  exact (conj Hlive (conj Hgraph (Hdicts _ Hlive))).
Defined.

(** The second step of the scenario. *)
Lemma winner_cells_are_active_witness :
  @chosen_in_column Toy.toyTM
    (dict_contents Toy.step1.2 (self_chosenCellForColumn Toy.step1.1)) /\
  contents Toy.step2.2 (self_winnerCells Toy.step2.1)
    ⊆ contents Toy.step2.2 (self_activeCells Toy.step2.1) /\
  @chosen_in_column Toy.toyTM
    (dict_contents Toy.step2.2 (self_chosenCellForColumn Toy.step2.1)).
Proof.
  exact (conj toy_step1_chosen_in_column
           (@winner_cells_are_active Toy.toyTM Toy.step1.1 {[ 0 ]} None true true
              Toy.step1.2 toy_lookup_sound toy_create_owner toy_least_member
              toy_activate_winners_active
              (fun column _ => toy_columns_nonempty column)
              toy_step1_chosen_in_column)).
Defined.

(** The learning call after step 1: the winner, cell 1, is active, and
    the pool of previous active cells is the cells 0 and 1. *)
Lemma learn_pool_when_winners_active_witness :
  contents Toy.step1.2 (self_winnerCells Toy.step1.1)
    ⊆ contents Toy.step1.2 (self_activeCells Toy.step1.1)
      ∪ contents Toy.step1.2 (self_activeExternalCells Toy.step1.1) /\
  contents Toy.step1.2 (self_activeCells Toy.step1.1)
    ∪ contents Toy.step1.2 (self_activeExternalCells Toy.step1.1)
    = {[ ConnectionsCell 0; ConnectionsCell 1 ]} /\
  connections Toy.learnCall.2 =
    @learnOnSegments Toy.toyTM (self_activeSegments Toy.step1.1)
      (burstColumns {[ 0 ]}
         (@activateCorrectlyPredictiveCells Toy.toyTM
            (contents Toy.step1.2 (self_predictiveCells Toy.step1.1)) {[ 0 ]}).2
         (contents Toy.step1.2 (self_activeCells Toy.step1.1)
          ∪ contents Toy.step1.2 (self_activeExternalCells Toy.step1.1))
         true (self_chosenCellForColumn Toy.step1.1) Toy.step1.2).1.1.2
      (contents Toy.step1.2 (self_activeCells Toy.step1.1)
       ∪ contents Toy.step1.2 (self_activeExternalCells Toy.step1.1))
      (res_winnerCells Toy.learnCall.1)
      (contents Toy.step1.2 (self_activeExternalCells Toy.step1.1)
       ∪ contents Toy.step1.2 (self_winnerCells Toy.step1.1))
      (connections
         (burstColumns {[ 0 ]}
            (@activateCorrectlyPredictiveCells Toy.toyTM
               (contents Toy.step1.2 (self_predictiveCells Toy.step1.1)) {[ 0 ]}).2
            (contents Toy.step1.2 (self_activeCells Toy.step1.1)
             ∪ contents Toy.step1.2 (self_activeExternalCells Toy.step1.1))
            true (self_chosenCellForColumn Toy.step1.1) Toy.step1.2).2).
Proof.
  assert (contents Toy.step1.2 (self_winnerCells Toy.step1.1)
          ⊆ contents Toy.step1.2 (self_activeCells Toy.step1.1)
            ∪ contents Toy.step1.2 (self_activeExternalCells Toy.step1.1)) as Hsub
    by (apply (bool_decide_unpack _); vm_compute; exact I).
  split; [exact Hsub | split; [vm_compute; reflexivity |]].
  exact (@learn_pool_when_winners_active Toy.toyTM {[ 0 ]}
           (self_predictedActiveCells Toy.step1.1)
           (self_activeExternalCells Toy.step1.1) (self_predictiveCells Toy.step1.1)
           (self_activeSegments Toy.step1.1) (self_activeCells Toy.step1.1)
           (self_winnerCells Toy.step1.1) true true
           (self_chosenCellForColumn Toy.step1.1) Toy.step1.2 Hsub).
Defined.

Section AfterCompute.

Context {TM : TemporalMemory}.

(** X17. After [compute], every cell of every unpredicted active column
    is an active cell. *)
Theorem unpredicted_columns_fully_active (self : GeneralTemporalMemory)
    (activeColumns : gset Z) (activeExternalCells : option (gset Z))
    (formInternalConnections learn : bool) (w : World) (column : Z) :
  let out := compute self activeColumns activeExternalCells
                     formInternalConnections learn w in
  column ∈ self_unpredictedActiveColumns out.1 ->
  cellsForColumn column ⊆ contents out.2 (self_activeCells out.1).
Proof.
  cbv zeta.
  destruct (compute_fields self activeColumns activeExternalCells
              formInternalConnections learn w)
    as (-> & _ & _ & _ & _ & -> & _).
  rewrite compute_call_unfold. cbv zeta.
  destruct (computeFn_result activeColumns
              (new_set (reindexActiveExternalCells
                          (normalizeExternalCells activeExternalCells)) w).1
              (self_activeExternalCells self) (self_predictiveCells self)
              (self_activeSegments self) (self_activeCells self)
              (self_winnerCells self) formInternalConnections
              (self_learnOnOneCell self) (self_chosenCellForColumn self) learn
              (new_set (reindexActiveExternalCells
                          (normalizeExternalCells activeExternalCells)) w).2)
    as (-> & _).
  destruct (computeFn_burst activeColumns
              (new_set (reindexActiveExternalCells
                          (normalizeExternalCells activeExternalCells)) w).1
              (self_activeExternalCells self) (self_predictiveCells self)
              (self_activeSegments self) (self_activeCells self)
              (self_winnerCells self) formInternalConnections
              (self_learnOnOneCell self) (self_chosenCellForColumn self) learn
              (new_set (reindexActiveExternalCells
                          (normalizeExternalCells activeExternalCells)) w).2)
    as (_ & -> & _).
  rewrite burstColumns_unfold. cbn [fst snd].
  intros Hcol x Hx. apply elem_of_union_r, burstColumns_loop_active.
  right. exists column. by rewrite elem_of_elements.
Qed.

(** X18. The prediction stored by [compute] is the one of the stored
    state: after the call, [activeSegments] and [predictiveCells] are
    what [computePredictiveCells] gives for the union of the stored
    active cells and the stored external cells on the graph that the
    call left.  The field [activeExternalCells] must name a live set
    before the call. *)
Theorem prediction_from_stored_state (self : GeneralTemporalMemory)
    (activeColumns : gset Z) (activeExternalCells : option (gset Z))
    (formInternalConnections learn : bool) (w : World) :
  self_activeExternalCells self ∈ dom (cellsets w) ->
  let out := compute self activeColumns activeExternalCells
                     formInternalConnections learn w in
  let next :=
    computePredictiveCells
      (contents out.2 (self_activeCells out.1)
       ∪ contents out.2 (self_activeExternalCells out.1))
      (connections out.2) in
  self_activeSegments out.1 = next.1 /\
  contents out.2 (self_predictiveCells out.1) = next.2.
Proof.
  intros Hlive. cbv zeta.
  pose proof (compute_external self activeColumns activeExternalCells
                formInternalConnections learn w Hlive) as Hext.
  pose proof (compute_call_external self activeColumns activeExternalCells
                formInternalConnections learn w Hlive) as Hcall.
  destruct (compute_fields self activeColumns activeExternalCells
              formInternalConnections learn w)
    as (A1 & _ & A3 & _ & A5 & _ & _ & _ & _ & _ & A11).
  cbv zeta in *. rewrite A1, A3, A5, A11, Hext, <- Hcall.
  rewrite compute_call_unfold. cbv zeta.
  destruct (computeFn_result activeColumns
              (new_set (reindexActiveExternalCells
                          (normalizeExternalCells activeExternalCells)) w).1
              (self_activeExternalCells self) (self_predictiveCells self)
              (self_activeSegments self) (self_activeCells self)
              (self_winnerCells self) formInternalConnections
              (self_learnOnOneCell self) (self_chosenCellForColumn self) learn
              (new_set (reindexActiveExternalCells
                          (normalizeExternalCells activeExternalCells)) w).2)
    as (_ & R2 & R3).
  split; [exact R2 | exact R3].
Qed.

End AfterCompute.

(** The second step of the scenario: column 0 is not predicted and its
    cells 0 and 1 are active. *)
Lemma unpredicted_columns_fully_active_witness :
  0 ∈ self_unpredictedActiveColumns Toy.step2.1 /\
  @cellsForColumn Toy.toyTM 0 ⊆ contents Toy.step2.2 (self_activeCells Toy.step2.1).
Proof.
  unfold Toy.step2.
  assert (0 ∈ self_unpredictedActiveColumns
                (compute Toy.step1.1 {[ 0 ]} None true true Toy.step1.2).1) as Hcol
    by (apply (bool_decide_unpack _); vm_compute; exact I).
  exact (conj Hcol
           (@unpredicted_columns_fully_active Toy.toyTM Toy.step1.1 {[ 0 ]} None
              true true Toy.step1.2 0 Hcol)).
Defined.

(** The second step of the scenario. *)
Lemma prediction_from_stored_state_witness :
  self_activeExternalCells Toy.step1.1 ∈ dom (cellsets Toy.step1.2) /\
  contents Toy.step2.2 (self_predictiveCells Toy.step2.1) =
    (@computePredictiveCells Toy.toyTM
       (contents Toy.step2.2 (self_activeCells Toy.step2.1)
        ∪ contents Toy.step2.2 (self_activeExternalCells Toy.step2.1))
       (connections Toy.step2.2)).2.
Proof.
  unfold Toy.step2.
  assert (self_activeExternalCells Toy.step1.1 ∈ dom (cellsets Toy.step1.2))
    as Hlive by (apply (bool_decide_unpack _); vm_compute; exact I).
  destruct (@prediction_from_stored_state Toy.toyTM Toy.step1.1 {[ 0 ]} None
              true true Toy.step1.2 Hlive) as (_ & Hpred).
  exact (conj Hlive Hpred).
Defined.
